(** * Quorum Optimizer: attribution de-duplication and reallocation scoring

    A shallow embedding of the analytical core of the Quorum Optimizer:

    - the last-touch window query of the attribution layer
      ([ROW_NUMBER() OVER (PARTITION BY ... ORDER BY ... DESC)], keep [rn = 1]),
      as documented in API_DOCUMENTATION.md and DATA_DICTIONARY.md;
    - the scoring and recommendation code of [src/quorum-optimizer.jsx]
      ([calcPriority], [calcIndex], [analyzeData] with its local [calcProj]);
    - the component around it: the priority colours, the tables and their
      CSV export, the sidebar and the selection of an agency and an
      advertiser, with the timer of the analysis.

    JavaScript Numbers are modelled twice.  The modules [JS] and
    [Optimizer] use exact arithmetic: a finite Number is a rational, and the
    three non-finite values [Infinity], [-Infinity] and [NaN] are kept with
    their IEEE-754 rules; rounding error, overflow and the sign of zero are
    not modelled (every zero is [+0]).  The module [Binary64] holds the
    scoring functions with the arithmetic of the machine, every operation
    rounded to the nearest binary64 number.  An integer score is the
    rounding of a quotient, and the two arithmetics can fall on different
    sides of a tie; what the scoring functions return is therefore stated
    on [Binary64], and the two models are compared on the entries of the
    data store. *)

From Stdlib Require Import ZArith QArith Qround Lqa Lia Bool List String Ascii.
From Stdlib Require Import Floats Uint63.
From Stdlib Require Import Sorting.Sorted Sorting.Permutation.
From stdpp Require Import gmap strings sorting pretty.
Import ListNotations.

#[local] Open Scope Z_scope.
#[local] Open Scope Q_scope.

(** ** JavaScript Numbers *)

Module JS.

Inductive num : Type :=
| Fin (q : Q)
| PosInf
| NegInf
| NaN.

Definition zero : num := Fin 0.
Definition of_Z (z : Z) : num := Fin (inject_Z z).

Definition is_finite (x : num) : bool :=
  match x with Fin _ => true | _ => false end.

(** Equality of Numbers as values ([Fin (1#2)] and [Fin (2#4)] are the same
    Number). *)
Definition num_eq (x y : num) : Prop :=
  match x, y with
  | Fin a, Fin b => a == b
  | PosInf, PosInf | NegInf, NegInf | NaN, NaN => True
  | _, _ => False
  end.

Definition num_eqb (x y : num) : bool :=
  match x, y with
  | Fin a, Fin b => Qeq_bool a b
  | PosInf, PosInf | NegInf, NegInf | NaN, NaN => true
  | _, _ => false
  end.

(** The rational a finite Number stands for (0 for the others). *)
Definition to_Q (x : num) : Q :=
  match x with Fin q => q | _ => 0 end.

(** Both finite, and the first at most the second. *)
Definition num_le (x y : num) : Prop :=
  match x, y with
  | Fin a, Fin b => a <= b
  | _, _ => False
  end.

Definition Qpos_b (q : Q) : bool := if Qlt_le_dec 0 q then true else false.
Definition Qneg_b (q : Q) : bool := if Qlt_le_dec q 0 then true else false.
Definition Qzero_b (q : Q) : bool := Qeq_bool q 0.

(** Unary minus. *)
Definition neg (x : num) : num :=
  match x with
  | Fin q => Fin (- q)
  | PosInf => NegInf
  | NegInf => PosInf
  | NaN => NaN
  end.

(** [x + y] *)
Definition add (x y : num) : num :=
  match x, y with
  | NaN, _ | _, NaN => NaN
  | Fin a, Fin b => Fin (a + b)
  | PosInf, NegInf | NegInf, PosInf => NaN
  | PosInf, _ | _, PosInf => PosInf
  | NegInf, _ | _, NegInf => NegInf
  end.

(** [x - y] *)
Definition sub (x y : num) : num := add x (neg y).

(** The infinity carrying the sign of a nonzero finite factor, [NaN] for
    zero. *)
Definition signed_inf (positive : bool) (q : Q) : num :=
  if Qzero_b q then NaN
  else if Bool.eqb positive (Qpos_b q) then PosInf else NegInf.

(** [x * y] *)
Definition mul (x y : num) : num :=
  match x, y with
  | NaN, _ | _, NaN => NaN
  | Fin a, Fin b => Fin (a * b)
  | PosInf, Fin q | Fin q, PosInf => signed_inf true q
  | NegInf, Fin q | Fin q, NegInf => signed_inf false q
  | PosInf, PosInf | NegInf, NegInf => PosInf
  | PosInf, NegInf | NegInf, PosInf => NegInf
  end.

(** [x / y].  A finite number over zero is an infinity of the numerator's
    sign, [0 / 0] is [NaN], and a finite number over an infinity is zero. *)
Definition div (x y : num) : num :=
  match x, y with
  | NaN, _ | _, NaN => NaN
  | Fin a, Fin b =>
      if Qzero_b b then
        (if Qpos_b a then PosInf else if Qneg_b a then NegInf else NaN)
      else Fin (a / b)
  | Fin _, (PosInf | NegInf) => Fin 0
  | PosInf, Fin b => if Qneg_b b then NegInf else PosInf
  | NegInf, Fin b => if Qneg_b b then PosInf else NegInf
  | (PosInf | NegInf), (PosInf | NegInf) => NaN
  end.

(** [x > y]: false as soon as one side is [NaN]. *)
Definition gt (x y : num) : bool :=
  match x, y with
  | NaN, _ | _, NaN => false
  | Fin a, Fin b => if Qlt_le_dec b a then true else false
  | PosInf, PosInf => false
  | PosInf, _ => true
  | _, PosInf => false
  | NegInf, _ => false
  | Fin _, NegInf => true
  end.

(** ToBoolean on a Number: [0] and [NaN] are falsy. *)
Definition truthy (x : num) : bool :=
  match x with
  | Fin q => negb (Qzero_b q)
  | PosInf | NegInf => true
  | NaN => false
  end.

(** ToNumber on a property that may be missing: [undefined] becomes [NaN]. *)
Definition to_num (o : option num) : num :=
  match o with Some v => v | None => NaN end.

(** [o || d] for a numeric property [o] that may be missing. *)
Definition or_else (o : option num) (d : num) : num :=
  match o with
  | Some v => if truthy v then v else d
  | None => d
  end.

(** [Math.round]: the nearest integer, a tie going towards [+Infinity];
    the non-finite values are returned unchanged. *)
Definition Math_round (x : num) : num :=
  match x with
  | Fin q => of_Z (Qfloor (q + (1 # 2)))
  | _ => x
  end.

(** [!s] for a string property that may be missing. *)
Definition falsy_string (o : option string) : bool :=
  match o with
  | None => true
  | Some s => if String.eqb s EmptyString then true else false
  end.

End JS.

(** ** The optimizer ([src/quorum-optimizer.jsx]), over the exact Numbers
    of [JS] *)

Module Optimizer.
Import JS.

(** A member of a dimension as the data store holds it: a campaign
    ([name]), a publisher or context ([code]), a ZIP code ([zip]) or a
    traffic source ([source]).  [key] is that identifying property.  A
    property that a kind of object does not carry is [undefined], here
    [None]: ZIP rows of the store have no [visitRate], only ZIP rows have
    [dma] and [population]. *)
Record Row : Type := {
  key : string;
  dma : option string;
  population : option num;
  impressions : num;
  visits : num;
  visitRate : option num
}.

(** [{ ...c, index }] *)
Record Indexed : Type := { campaign : Row; index : num }.

(** [{ ...p, reallocationPriority }] *)
Record Scored : Type := { row : Row; reallocationPriority : num }.

Record Summary : Type := {
  totalImpressions : num;
  totalVisits : num;
  overallVisitRate : num;
  liftVsControl : num
}.

(** One entry of [advertiserData].  Arrays and objects an advertiser does
    not have are [undefined]. *)
Record AdvData : Type := {
  summary : Summary;
  campaigns : option (list Row);
  publishers : option (list Row);
  contexts : option (list Row);
  zipCodes : option (list Row);
  dmaZipCounts : option (gmap string num);
  trafficSources : option (list Row);
  noPublisherData : option bool
}.

(** [a || []] on an array that may be missing (an array, even an empty one,
    is truthy). *)
Definition or_empty {A} (a : option (list A)) : list A :=
  match a with Some l => l | None => [] end.

(** [advData.publishers || advData.contexts || []] *)
Definition publishers_or_contexts (advData : AdvData) : list Row :=
  match publishers advData with
  | Some l => l
  | None => or_empty (contexts advData)
  end.

(** *** Standard calculations *)

Definition calcPriority (item : Row) (baseline totalImpressions : num) : num :=
  let impShare := div (impressions item) totalImpressions in
  let perfRatio :=
    if gt baseline zero then div (to_num (visitRate item)) baseline else zero in
  Math_round (sub (mul impShare (of_Z 1000)) (mul perfRatio (of_Z 100))).

Definition calcIndex (itemRate baselineRate : num) : num :=
  if gt baselineRate zero
  then Math_round (mul (div itemRate baselineRate) (of_Z 100))
  else zero.

(** *** analyzeData: enrichment of the ZIP rows

    The constants of the arrow function mapped over [advData.zipCodes], with
    the variables it closes over as parameters. *)

(** [(advData.zipCodes || []).reduce((s, z) => s + (z.population || 0), 0)] *)
Definition totalPop_of (zs : list Row) : num :=
  fold_left (fun s z => add s (or_else (population z) zero)) zs zero.

Definition zip_visitRate (z : Row) : num :=
  if gt (impressions z) zero
  then div (visits z) (impressions z)
  else or_else (visitRate z) zero.

Definition zipImpShare (totalImps : num) (z : Row) : num :=
  div (impressions z) totalImps.

Definition zipPopShare (totalPop : num) (z : Row) : num :=
  if gt totalPop zero
  then div (or_else (population z) zero) totalPop
  else zero.

Definition popWeightedIdx (totalImps totalPop : num) (z : Row) : num :=
  if gt (zipPopShare totalPop z) zero
  then Math_round
         (mul (div (zipImpShare totalImps z) (zipPopShare totalPop z))
              (of_Z 100))
  else zero.

Definition perfIdx (baseline : num) (z : Row) : num :=
  calcIndex (zip_visitRate z) baseline.

(** [{ impressions: z.impressions, visitRate }]: the object literal has no
    other property ([calcPriority] reads none). *)
Definition priority_item (z : Row) : Row :=
  {| key := EmptyString; dma := None; population := None;
     impressions := impressions z; visits := NaN;
     visitRate := Some (zip_visitRate z) |}.

Definition zip_reallocationPriority
    (baseline totalImps totalPop : num) (z : Row) : num :=
  if gt (popWeightedIdx totalImps totalPop z) zero
  then sub (popWeightedIdx totalImps totalPop z) (perfIdx baseline z)
  else calcPriority (priority_item z) baseline totalImps.

(** [{ ...z, visitRate, reallocationPriority }] *)
Definition enrich_zip (baseline totalImps totalPop : num) (z : Row) : Scored :=
  {| row := {| key := key z; dma := dma z; population := population z;
               impressions := impressions z; visits := visits z;
               visitRate := Some (zip_visitRate z) |};
     reallocationPriority :=
       zip_reallocationPriority baseline totalImps totalPop z |}.

Definition enrich_publisher (baseline totalImps : num) (p : Row) : Scored :=
  {| row := p; reallocationPriority := calcPriority p baseline totalImps |}.

Definition enrich_campaign (baseline : num) (c : Row) : Indexed :=
  {| campaign := c; index := calcIndex (to_num (visitRate c)) baseline |}.

(** *** analyzeData: sorting and tier selection *)

(** The comparator [(a, b) => b.reallocationPriority - a.reallocationPriority]. *)
Definition by_priority_desc (a b : Scored) : num :=
  sub (reallocationPriority b) (reallocationPriority a).

(** [Array.prototype.sort] with a comparator: a stable sort (ECMAScript 2019)
    in which [a] is moved behind [b] only when the comparator's value on
    [(a, b)] is positive; a [NaN] value counts as [+0].  For a comparator that
    is a consistent ordering every stable sort returns the same array; this
    one is an insertion sort. *)
Section Sort.
Context {A : Type} (cmp : A -> A -> num).

Fixpoint insert (x : A) (l : list A) : list A :=
  match l with
  | [] => [x]
  | y :: l' => if gt (cmp x y) zero then y :: insert x l' else x :: l
  end.

Definition sort (l : list A) : list A := fold_right insert [] l.
End Sort.

(** [a.slice(0, n)] *)
Definition slice0 {A} (n : nat) (l : list A) : list A := firstn n l.

(** [(!z.dma || (dmaZipCounts[z.dma] || 999) > 5)], [dmaZipCounts] read
    as the map of its own properties. *)
Definition dma_guard (counts : gmap string num) (z : Scored) : bool :=
  falsy_string (dma (row z))
  || gt (or_else (match dma (row z) with
                  | Some d => counts !! d
                  | None => None
                  end) (of_Z 999)) (of_Z 5).

Definition sortedPubs (publishers : list Scored) : list Scored :=
  sort by_priority_desc publishers.

Definition sortedZips (zipCodes : list Scored) : list Scored :=
  sort by_priority_desc zipCodes.

Definition consPubs (publishers : list Scored) : list Scored :=
  slice0 5 (List.filter (fun p => gt (reallocationPriority p) zero
                             && gt (visits (row p)) zero)
                   (sortedPubs publishers)).

Definition aggPubs (publishers : list Scored) : list Scored :=
  slice0 8 (List.filter (fun p => gt (reallocationPriority p) (of_Z (-20)))
                   (sortedPubs publishers)).

Definition consZips (counts : gmap string num) (zipCodes : list Scored)
  : list Scored :=
  slice0 5 (List.filter (fun z => gt (reallocationPriority z) zero
                             && gt (visits (row z)) zero
                             && dma_guard counts z)
                   (sortedZips zipCodes)).

Definition aggZips (counts : gmap string num) (zipCodes : list Scored)
  : list Scored :=
  slice0 10 (List.filter (fun z => gt (reallocationPriority z) (of_Z (-50))
                              && dma_guard counts z)
                    (sortedZips zipCodes)).

(** *** analyzeData: projection *)

(** What [calcProj] returns. *)
Record Projection : Type := { newRate : num; improvement : num; excImps : num }.

(** [{ ...calcProj(items), count: items.length, items }] *)
Record Recommendation : Type := {
  projection : Projection;
  count : nat;
  items : list Scored
}.

Record Tiers : Type := {
  conservative : Recommendation;
  aggressive : Recommendation
}.

Definition calcProj (advData : AdvData) (items : list Scored) : Projection :=
  let totalImps := totalImpressions (summary advData) in
  let baseline := overallVisitRate (summary advData) in
  let excImps := fold_left (fun s i => add s (impressions (row i))) items zero in
  let excVisits := fold_left (fun s i => add s (visits (row i))) items zero in
  let newRate :=
    div (sub (totalVisits (summary advData)) excVisits) (sub totalImps excImps) in
  {| newRate := newRate;
     improvement := mul (sub (div newRate baseline) (of_Z 1)) (of_Z 100);
     excImps := excImps |}.

Definition recommendation (advData : AdvData) (items : list Scored)
  : Recommendation :=
  {| projection := calcProj advData items;
     count := length items;
     items := items |}.

(** *** analyzeData *)

Inductive AttributionType : Type := web_visits | store_visits.

(** The object handed to [setData]. *)
Record Data : Type := {
  type : AttributionType;
  d_summary : Summary;
  d_campaigns : list Indexed;
  d_publishers : list Scored;
  d_contexts : list Scored;
  d_zipCodes : list Scored;
  d_trafficSources : list Row;
  d_noPublisherData : bool;
  pubRecommendations : option Tiers;
  geoRecommendations : Tiers
}.

(** The body of the timer callback, for the entry [advData] of the selected
    advertiser. *)
Definition analyze (selectedAgency : string) (advData : AdvData) : Data :=
  let isWebVisits := String.eqb selectedAgency "1480" in
  let baseline := overallVisitRate (summary advData) in
  let totalImps := totalImpressions (summary advData) in
  let campaigns := map (enrich_campaign baseline) (or_empty (campaigns advData)) in
  let publishers :=
    map (enrich_publisher baseline totalImps) (publishers_or_contexts advData) in
  let totalPop := totalPop_of (or_empty (zipCodes advData)) in
  let zipCodes :=
    map (enrich_zip baseline totalImps totalPop) (or_empty (zipCodes advData)) in
  let dmaZipCounts :=
    match dmaZipCounts advData with Some m => m | None => ∅ end in
  {| type := if isWebVisits then web_visits else store_visits;
     d_summary := summary advData;
     d_campaigns := campaigns;
     d_publishers := if isWebVisits then [] else publishers;
     d_contexts := if isWebVisits then publishers else [];
     d_zipCodes := zipCodes;
     d_trafficSources := or_empty (trafficSources advData);
     d_noPublisherData :=
       match noPublisherData advData with Some b => b | None => false end;
     pubRecommendations :=
       match publishers with
       | [] => None
       | _ :: _ =>
           Some {| conservative := recommendation advData (consPubs publishers);
                   aggressive := recommendation advData (aggPubs publishers) |}
       end;
     geoRecommendations :=
       {| conservative :=
            recommendation advData (consZips dmaZipCounts zipCodes);
          aggressive :=
            recommendation advData (aggZips dmaZipCounts zipCodes) |} |}.

(** [analyzeData]: nothing is computed (and no data is set) when no
    advertiser is selected or the store has no entry for it. *)
Definition analyzeData (advertiserData : gmap string AdvData)
    (selectedAgency selectedAdvertiser : string) : option Data :=
  if String.eqb selectedAdvertiser EmptyString then None
  else match advertiserData !! selectedAdvertiser with
       | Some advData => Some (analyze selectedAgency advData)
       | None => None
       end.

End Optimizer.

(** ** Last-touch attribution (the documented window query)

    [[
    WITH last_touch AS (
      SELECT sv.*,
             ROW_NUMBER() OVER (PARTITION BY sv.DEVICE_ID_QU, sv.DRIVEBYDATE
                                ORDER BY sv.IMP_TIMESTAMP DESC) AS rn
      FROM QUORUM_ADV_STORE_VISITS sv ...)
    SELECT ... FROM last_touch lt WHERE lt.rn = 1
    ]]
    and the same over [PARTITION BY IMP_MAID, SITE_VISIT_ID ORDER BY IMP_DATE
    DESC] for web events. *)

Module Attribution.

(** The conversion episode of a flagged row: a store visit on a date
    ([DRIVEBYDATE]) or a site visit ([SITE_VISIT_ID]). *)
Inductive Episode : Type :=
| StoreVisit (drivebydate : Z)
| SiteVisit (site_visit_id : string).

(** A row of the gold table with its attribution flag set: its identifier,
    the device ([DEVICE_ID_QU] or [IMP_MAID]), the episode and the impression
    time ([IMP_TIMESTAMP] or [IMP_DATE]). *)
Record ConversionFlag : Type := {
  row_id : string;
  device : string;
  episode : Episode;
  imp_timestamp : Z
}.

#[global] Instance Episode_eq_dec : EqDecision Episode.
Proof. solve_decision. Defined.

(** The [PARTITION BY] columns. *)
Definition episode_key (f : ConversionFlag) : string * Episode :=
  (device f, episode f).

Definition episode_keys (rows : list ConversionFlag) : list (string * Episode) :=
  remove_dups (map episode_key rows).

Definition partition_of (k : string * Episode) (rows : list ConversionFlag)
  : list ConversionFlag :=
  filter (fun f => episode_key f = k) rows.

Definition partitions (rows : list ConversionFlag) : list (list ConversionFlag) :=
  map (fun k => partition_of k rows) (episode_keys rows).

(** [ORDER BY IMP_TIMESTAMP DESC]: [a] may stand before [b]. *)
Definition ts_desc (a b : ConversionFlag) : Prop :=
  (imp_timestamp b <= imp_timestamp a)%Z.

#[global] Instance ts_desc_dec : RelDecision ts_desc.
Proof. intros a b. unfold ts_desc. apply _. Defined.

(** [o] is an evaluation of the [ORDER BY] on the partition [p]: the rows of
    [p] in an order of non-increasing timestamp.  Rows with the same
    timestamp are peers, and the query does not say in which order they
    come. *)
Definition ordered_by_ts_desc (p o : list ConversionFlag) : Prop :=
  p ≡ₚ o /\ StronglySorted ts_desc o.

(** [ROW_NUMBER()]: the rows of an ordered partition, numbered from 1. *)
Definition row_number (o : list ConversionFlag) : list (ConversionFlag * nat) :=
  combine o (seq 1 (length o)).

(** [w] is a result of the [last_touch] expression on [rows]. *)
Definition is_last_touch (rows : list ConversionFlag)
    (w : list (ConversionFlag * nat)) : Prop :=
  exists orders,
    Forall2 ordered_by_ts_desc (partitions rows) orders
    /\ w = flat_map row_number orders.

(** [WHERE rn = 1] *)
Definition keep_rn1 (w : list (ConversionFlag * nat)) : list ConversionFlag :=
  map fst (List.filter (fun x => Nat.eqb (snd x) 1) w).

(** [out] is a result of the de-duplication of [rows]. *)
Definition dedupes_to (rows out : list ConversionFlag) : Prop :=
  exists w, is_last_touch rows w /\ out = keep_rn1 w.

(** One evaluation of the query, the one of an engine that orders each
    partition with a merge sort. *)
Definition last_touch (rows : list ConversionFlag)
  : list (ConversionFlag * nat) :=
  flat_map (fun p => row_number (merge_sort ts_desc p)) (partitions rows).

Definition dedupe (rows : list ConversionFlag) : list ConversionFlag :=
  keep_rn1 (last_touch rows).

(** [f] carries the latest impression time of its episode. *)
Definition latest_in (rows : list ConversionFlag) (f : ConversionFlag) : Prop :=
  forall g, In g rows -> episode_key g = episode_key f ->
            (imp_timestamp g <= imp_timestamp f)%Z.

(** No episode has two different rows that both carry its latest impression
    time. *)
Definition single_latest (rows : list ConversionFlag) : Prop :=
  forall f g, In f rows -> In g rows -> episode_key f = episode_key g ->
              latest_in rows f -> latest_in rows g -> f = g.

End Attribution.

(** ** The formulas of the specification, over exact rationals *)

Module Spec.

(** Rounding to the nearest integer, a tie going up: the integer [n] with
    [n - 1/2 <= x < n + 1/2]. *)
Definition round (x : Q) : Z := Qfloor (x + (1 # 2)).

Definition impression_share (impressions total_impressions : Q) : Q :=
  impressions / total_impressions.

(** [round(1000*impression_share - 100*(visit_rate/baseline_rate))] *)
Definition priority (impression_share visit_rate baseline_rate : Q) : Z :=
  round (1000 * impression_share - 100 * (visit_rate / baseline_rate)).

(** [round(100 * visit_rate / baseline_rate)], 0 for a zero baseline. *)
Definition performance_index (visit_rate baseline_rate : Q) : Z :=
  if Qeq_bool baseline_rate 0 then 0%Z
  else round (100 * visit_rate / baseline_rate).

Definition population_share (population total_population : Q) : Q :=
  population / total_population.

(** [round(100 * impression_share / population_share)], 0 if the
    population share is 0. *)
Definition pop_weighted_index (impression_share population_share : Q) : Z :=
  if Qeq_bool population_share 0 then 0%Z
  else round (100 * impression_share / population_share).

(** The priority of a geography row. *)
Definition geo_priority
    (impression_share population_share visit_rate baseline_rate : Q) : Z :=
  let pwi := pop_weighted_index impression_share population_share in
  if (0 <? pwi)%Z
  then (pwi - performance_index visit_rate baseline_rate)%Z
  else priority impression_share visit_rate baseline_rate.

(** The sum of a list. *)
Definition sum (l : list Q) : Q := fold_right Qplus 0 l.



End Spec.

(** ** Entries of the advertiser data store *)

Module Store.
Import JS Optimizer.
#[local] Open Scope string_scope.

(** [{ name | code | source: k, impressions: i, visits: v, visitRate: r }] *)
Definition rated (k : string) (i v : Z) (r : Q) : Row :=
  {| key := k; dma := None; population := None;
     impressions := of_Z i; visits := of_Z v; visitRate := Some (Fin r) |}.

(** [{ zip: k, dma: d, population: p, impressions: i, visits: v }] *)
Definition zip_row (k d : string) (p i v : Z) : Row :=
  {| key := k; dma := Some d; population := Some (of_Z p);
     impressions := of_Z i; visits := of_Z v; visitRate := None |}.

Definition counts (l : list (string * Z)) : gmap string num :=
  list_to_map (map (fun kv => (fst kv, of_Z (snd kv))) l).

(** MNTN - Noodles & Company *)
Definition adv_45143 : AdvData :=
  {| summary :=
       {| totalImpressions := of_Z 7624633; totalVisits := of_Z 30157;
          overallVisitRate := Fin 0.00395; liftVsControl := Fin 18.3 |};
     campaigns := Some [
       rated "2025 - Priority - Denver" 1222663 8661 0.007084;
       rated "2025 - Priority - Chicago" 1183200 3249 0.002746;
       rated "2025 - Priority - Minneapolis-StPaul" 679792 4855 0.007142;
       rated "2025 - Priority - Retargeting" 639548 1688 0.002639;
       rated "2025 - Secondary - Washington DC" 546210 961 0.001759;
       rated "2025 - Secondary - Wisconsin" 526563 6223 0.011818;
       rated "2025 - Secondary - Baltimore" 334246 78 0.000233;
       rated "2025 - Remaining Markets" 319002 1915 0.006003 ];
     publishers := Some [
       rated "HBO Max" 1974033 922 0.000467;
       rated "NBC" 1872428 938 0.000501;
       rated "Paramount Streaming - Comedy" 1274774 633 0.000497;
       rated "Paramount Streaming - Drama" 1185666 576 0.000486;
       rated "Paramount Streaming - News" 737080 452 0.000613;
       rated "Paramount Streaming - Action-Thriller" 640642 325 0.000507;
       rated "Paramount Streaming - Reality" 502100 273 0.000544;
       rated "Tubi Entertainment" 475965 188 0.000395;
       rated "TLC" 324575 93 0.000287;
       rated "Paramount Streaming - Sci-Fi" 321660 190 0.000591;
       rated "Paramount Streaming - Documentary" 246090 168 0.000683;
       rated "Paramount Streaming - Sports" 221269 198 0.000895;
       rated "Discovery Channel" 138923 110 0.000792 ];
     contexts := None;
     zipCodes := Some [
       zip_row "80208" "DENVER" 26592 263564 1892;
       zip_row "55440" "MINNEAPOLIS - ST. PAUL" 8996 231766 1583;
       zip_row "60666" "CHICAGO" 9926 217402 474;
       zip_row "20068" "WASHINGTON, DC" 2207 171308 267;
       zip_row "50981" "DES MOINES - AMES" 2026 142151 0;
       zip_row "21215" "BALTIMORE" 58448 135857 41;
       zip_row "80001" "DENVER" 22 131503 798;
       zip_row "21203" "BALTIMORE" 21010 114418 6;
       zip_row "20147" "WASHINGTON, DC" 64197 110484 235;
       zip_row "60126" "CHICAGO" 48410 107495 226;
       zip_row "80040" "DENVER" 25323 93129 483;
       zip_row "60701" "CHICAGO" 9926 93061 61;
       zip_row "80160" "DENVER" 33603 90229 591;
       zip_row "60056" "CHICAGO" 55250 81795 178;
       zip_row "80523" "DENVER" 37076 72863 377 ];
     dmaZipCounts := Some (counts [
       ("CHICAGO", 362%Z); ("DENVER", 237%Z);
       ("MINNEAPOLIS - ST. PAUL", 247%Z); ("WASHINGTON, DC", 294%Z);
       ("BALTIMORE", 117%Z); ("DES MOINES - AMES", 51%Z) ]);
     trafficSources := None;
     noPublisherData := None |}.

(** Causal iQ - Space Coast Tourism (no publisher data, geography only) *)
Definition adv_7389 : AdvData :=
  {| summary :=
       {| totalImpressions := of_Z 147142878; totalVisits := of_Z 5702339;
          overallVisitRate := Fin 0.03875; liftVsControl := Fin 45.6 |};
     campaigns := Some [];
     publishers := Some [];
     contexts := None;
     zipCodes := Some [
       zip_row "10123" "NEW YORK" 0 2831300 115624;
       zip_row "30302" "ATLANTA" 28077 1267043 97007;
       zip_row "33102" "MIAMI - FT. LAUDERDALE" 0 1229889 187226;
       zip_row "32811" "ORLANDO - DAYTONA BCH" 41246 1168239 534750;
       zip_row "32802" "ORLANDO - DAYTONA BCH" 12174 1145481 245380;
       zip_row "20149" "WASHINGTON, DC" 48110 1060622 36507;
       zip_row "60666" "CHICAGO" 9926 1047066 29447;
       zip_row "20068" "WASHINGTON, DC" 2207 885056 13407;
       zip_row "19099" "PHILADELPHIA" 13603 825804 16361;
       zip_row "33606" "TAMPA - ST. PETE" 19466 630796 78338;
       zip_row "34758" "ORLANDO - DAYTONA BCH" 41094 447993 195119;
       zip_row "32920" "ORLANDO - DAYTONA BCH" 10181 422592 178407 ];
     dmaZipCounts := Some (counts [
       ("ORLANDO - DAYTONA BCH", 145%Z); ("MIAMI - FT. LAUDERDALE", 89%Z);
       ("NEW YORK", 67%Z); ("TAMPA - ST. PETE", 54%Z); ("ATLANTA", 48%Z) ]);
     trafficSources := None;
     noPublisherData := Some true |}.

(** ViacomCBS - Lean RX (web visits).  The entry has [postalCodes] in
    place of [zipCodes]; [analyzeData] does not read them. *)
Definition adv_40514 : AdvData :=
  {| summary :=
       {| totalImpressions := of_Z 1432999; totalVisits := of_Z 23896;
          overallVisitRate := Fin 0.01667; liftVsControl := Fin 23.4 |};
     campaigns := Some [];
     publishers := None;
     contexts := Some [
       rated "g1080220" 321745 4790 0.0149;
       rated "g1080212" 100890 4421 0.0438;
       rated "g1094458" 86721 260 0.0030;
       rated "g1080222" 79873 859 0.0108;
       rated "g965628" 72559 1308 0.0180;
       rated "g1080218" 66201 173 0.0026;
       rated "g1080210" 59723 1111 0.0186;
       rated "g1080211" 31280 1474 0.0471 ];
     zipCodes := None;
     dmaZipCounts := None;
     trafficSources := Some [
       rated "Telly" 2229 89 0.0399;
       rated "Paramount+" 7960 311 0.0391;
       rated "Google/DV360" 46253 1713 0.0370;
       rated "Amazon" 16608 609 0.0367;
       rated "Pluto TV" 53121 1860 0.0350 ];
     noPublisherData := None |}.

Definition advertiserData : gmap string AdvData :=
  list_to_map [("45143", adv_45143); ("7389", adv_7389); ("40514", adv_40514)].

End Store.

(** ** The scoring functions over binary64

    The same code with the arithmetic of the machine: every operation
    rounds to the nearest binary64 number.  [Math.round] is computed from
    the exact value of its argument. *)

Module Binary64.
Import JS Optimizer.
#[local] Open Scope float_scope.

(** The binary64 number of an integer below 2^63 in magnitude (exact below
    2^53). *)
Definition of_Z (z : Z) : float :=
  match z with
  | Z0 => 0
  | Zpos _ => of_uint63 (Uint63.of_Z z)
  | Zneg p => - of_uint63 (Uint63.of_Z (Zpos p))
  end.

(** The binary64 number nearest to a rational whose numerator and
    denominator are below 2^53: what a decimal literal of the source
    denotes. *)
Definition of_Q (q : Q) : float := of_Z (Qnum q) / of_Z (Zpos (Qden q)).

Definition of_num (x : num) : float :=
  match x with
  | Fin q => of_Q q
  | PosInf => infinity
  | NegInf => neg_infinity
  | JS.NaN => nan
  end.

(** The exact value of a binary64 number. *)
Definition value (x : float) : num :=
  match Prim2SF x with
  | S754_zero _ => Fin 0
  | S754_finite s m e =>
      let v := (inject_Z (Zpos m) * Qpower 2 e)%Q in
      Fin (if s then Qopp v else v)
  | S754_infinity s => if s then NegInf else PosInf
  | S754_nan => JS.NaN
  end.

(** [Math.round]: the nearest integer, a tie going towards [+Infinity];
    zeros, infinities and [NaN] are returned unchanged, a binary64 number of
    magnitude 2^52 or more is an integer, and a negative number that rounds
    to zero gives [-0]. *)
Definition Math_round (x : float) : float :=
  match Prim2SF x with
  | S754_finite s m e =>
      if 4503599627370496 <=? abs x then x
      else
        let n := Qfloor (to_Q (value x) + (1 # 2))%Q in
        if s && (n =? 0)%Z then neg_zero else of_Z n
  | _ => x
  end.

Definition truthy (x : float) : bool := negb (x =? 0) && (x =? x).

Definition or_else (o : option float) (d : float) : float :=
  match o with
  | Some v => if truthy v then v else d
  | None => d
  end.

Definition calcPriority
    (impressions visitRate baseline totalImpressions : float) : float :=
  let impShare := impressions / totalImpressions in
  let perfRatio := if 0 <? baseline then visitRate / baseline else 0 in
  Math_round ((impShare * 1000) - (perfRatio * 100)).

Definition calcIndex (itemRate baselineRate : float) : float :=
  if 0 <? baselineRate
  then Math_round ((itemRate / baselineRate) * 100)
  else 0.

Definition totalPop_of (populations : list (option float)) : float :=
  fold_left (fun s p => s + or_else p 0) populations 0.

(** The constants of the arrow function mapped over [advData.zipCodes],
    on the figures of a ZIP row. *)
Definition zip_visitRate (impressions visits : float)
    (visitRate : option float) : float :=
  if 0 <? impressions then visits / impressions else or_else visitRate 0.

Definition zipImpShare (totalImps impressions : float) : float :=
  impressions / totalImps.

Definition zipPopShare (totalPop : float) (population : option float)
  : float :=
  if 0 <? totalPop then or_else population 0 / totalPop else 0.

Definition popWeightedIdx (zipImpShare zipPopShare : float) : float :=
  if 0 <? zipPopShare
  then Math_round ((zipImpShare / zipPopShare) * 100)
  else 0.

Definition perfIdx (baseline visitRate : float) : float :=
  calcIndex visitRate baseline.

Definition zip_reallocationPriority (baseline totalImps totalPop : float)
    (impressions visits : float) (rate population : option float) : float :=
  let visitRate := zip_visitRate impressions visits rate in
  let popWeightedIdx :=
    popWeightedIdx (zipImpShare totalImps impressions)
                   (zipPopShare totalPop population) in
  if 0 <? popWeightedIdx
  then popWeightedIdx - perfIdx baseline visitRate
  else calcPriority impressions visitRate baseline totalImps.

(** The scores of an entry's campaigns, publishers (or contexts) and ZIP
    codes, computed in binary64 from the entry's figures. *)
Definition campaign_indexes (advData : AdvData) : list num :=
  map (fun c => value (calcIndex (of_num (to_num (visitRate c)))
                                 (of_num (overallVisitRate (summary advData)))))
      (or_empty (campaigns advData)).

Definition publisher_priorities (advData : AdvData) : list num :=
  map (fun p => value (calcPriority
                         (of_num (impressions p))
                         (of_num (to_num (visitRate p)))
                         (of_num (overallVisitRate (summary advData)))
                         (of_num (totalImpressions (summary advData)))))
      (publishers_or_contexts advData).

Definition zip_priorities (advData : AdvData) : list num :=
  let zs := or_empty (zipCodes advData) in
  let totalPop :=
    totalPop_of (map (fun z => option_map of_num (population z)) zs) in
  map (fun z => value (zip_reallocationPriority
                         (of_num (overallVisitRate (summary advData)))
                         (of_num (totalImpressions (summary advData)))
                         totalPop
                         (of_num (impressions z)) (of_num (visits z))
                         (option_map of_num (visitRate z))
                         (option_map of_num (population z))))
      zs.

(** The two models give an entry the same scores. *)
Definition same_scores (advData : AdvData) : bool :=
  let d := analyze EmptyString advData in
  forallb (fun xy => num_eqb (fst xy) (snd xy))
    (combine (campaign_indexes advData) (map index (d_campaigns d))
     ++ combine (publisher_priorities advData)
                (map reallocationPriority (d_publishers d))
     ++ combine (zip_priorities advData)
                (map reallocationPriority (d_zipCodes d)))
  && Nat.eqb (length (campaign_indexes advData)) (length (d_campaigns d))
  && Nat.eqb (length (publisher_priorities advData)) (length (d_publishers d))
  && Nat.eqb (length (zip_priorities advData)) (length (d_zipCodes d)).

End Binary64.

(** ** The formulas of the specification, over binary64

    The formulas as the specification writes them, every operation rounded
    to binary64 and [round] being [Math.round]; a quotient is taken before
    the product with 100. *)

Module Spec64.
#[local] Open Scope float_scope.

Definition round (x : float) : float := Binary64.Math_round x.

Definition impression_share (impressions total_impressions : float) : float :=
  impressions / total_impressions.

(** [round(1000*impression_share - 100*(visit_rate/baseline_rate))] *)
Definition priority (impression_share visit_rate baseline_rate : float)
  : float :=
  round (1000 * impression_share - 100 * (visit_rate / baseline_rate)).

(** [round(100 * visit_rate / baseline_rate)], 0 for a zero baseline. *)
Definition performance_index (visit_rate baseline_rate : float) : float :=
  if baseline_rate =? 0 then 0
  else round (100 * (visit_rate / baseline_rate)).

Definition population_share (population total_population : float) : float :=
  population / total_population.

(** [round(100 * impression_share / population_share)], 0 if the
    population share is 0. *)
Definition pop_weighted_index (impression_share population_share : float)
  : float :=
  if population_share =? 0 then 0
  else round (100 * (impression_share / population_share)).

(** The priority of a geography row. *)
Definition geo_priority
    (impression_share population_share visit_rate baseline_rate : float)
  : float :=
  let pwi := pop_weighted_index impression_share population_share in
  if 0 <? pwi
  then pwi - performance_index visit_rate baseline_rate
  else priority impression_share visit_rate baseline_rate.

End Spec64.

(** ** Example entries *)

Module Examples.
Import JS Optimizer Store.
#[local] Open Scope string_scope.


(** An advertiser with a ZIP code that had no impression in the period. *)
Definition adv_idle_zip : AdvData :=
  {| summary :=
       {| totalImpressions := of_Z 1000000; totalVisits := of_Z 4000;
          overallVisitRate := Fin 0.004; liftVsControl := Fin 10 |};
     campaigns := None;
     publishers := None;
     contexts := None;
     zipCodes := Some [
       zip_row "80001" "DENVER" 1000 500000 500;
       zip_row "80002" "DENVER" 2000 0 0 ];
     dmaZipCounts := Some (counts [("DENVER", 237%Z)]);
     trafficSources := None;
     noPublisherData := None |}.

(** An advertiser that bought a single publisher. *)
Definition adv_single_publisher : AdvData :=
  {| summary :=
       {| totalImpressions := of_Z 1000000; totalVisits := of_Z 4000;
          overallVisitRate := Fin 0.004; liftVsControl := Fin 10 |};
     campaigns := None;
     publishers := Some [ rated "NBC" 1000000 1000 0.001 ];
     contexts := None;
     zipCodes := None;
     dmaZipCounts := None;
     trafficSources := None;
     noPublisherData := None |}.

End Examples.

(** ** Example tables *)

Module Tables.
Import Attribution.
#[local] Open Scope string_scope.




(** Two store visits of device X and a site visit of device Y; the three
    rows of the first store visit have impression times 1, 3 and 2. *)
Definition e1 : ConversionFlag :=
  {| row_id := "r1"; device := "X"; episode := StoreVisit 20260115;
     imp_timestamp := 1 |}.
Definition e2 : ConversionFlag :=
  {| row_id := "r2"; device := "X"; episode := StoreVisit 20260115;
     imp_timestamp := 3 |}.
Definition e3 : ConversionFlag :=
  {| row_id := "r3"; device := "X"; episode := StoreVisit 20260115;
     imp_timestamp := 2 |}.
Definition e4 : ConversionFlag :=
  {| row_id := "r4"; device := "X"; episode := StoreVisit 20260116;
     imp_timestamp := 4 |}.
Definition e5 : ConversionFlag :=
  {| row_id := "r5"; device := "Y"; episode := SiteVisit "v1";
     imp_timestamp := 2 |}.

Definition untied : list ConversionFlag := [e1; e2; e3; e4; e5].

(** Twenty flagged rows of one store visit with increasing impression
    times. *)
Definition twenty : list ConversionFlag :=
  map (fun n =>
         {| row_id := String (Ascii.ascii_of_nat (64 + n)) EmptyString;
            device := "X"; episode := StoreVisit 20260115;
            imp_timestamp := 1767225600 + Z.of_nat n |})
      (seq 1 20).

End Tables.

(** ** Derived notions used in the statements *)

Section Notions.
Import JS Optimizer.

(** The performance ratio [calcPriority] uses: the guard on the baseline
    replaces the quotient by 0. *)
Definition perf_ratio (r b : Q) : Q := if Qlt_le_dec 0 b then r / b else 0.

(** The impressions and the visits of a selected row are finite. *)
Definition finite_counts (s : Scored) : Prop :=
  is_finite (impressions (row s)) = true /\ is_finite (visits (row s)) = true.

Definition q_impressions (s : Scored) : Q := to_Q (impressions (row s)).
Definition q_visits (s : Scored) : Q := to_Q (visits (row s)).

(** [a] may stand before [b] in an order of non-increasing priority. *)
Definition prio_ge (a b : Scored) : Prop :=
  num_le (reallocationPriority b) (reallocationPriority a).

Definition finite_priority (s : Scored) : Prop :=
  is_finite (reallocationPriority s) = true.


Definition finite_opt (o : option num) : Prop :=
  match o with Some v => is_finite v = true | None => True end.

(** Every figure the row carries is finite. *)
Definition finite_row (r : Row) : Prop :=
  is_finite (impressions r) = true /\ is_finite (visits r) = true
  /\ finite_opt (visitRate r) /\ finite_opt (population r).

(** A finite row that carries a visit rate, as campaigns, publishers and
    contexts do. *)
Definition rated_row (r : Row) : Prop :=
  finite_row r /\ visitRate r <> None.

(** A store entry with finite figures and a nonzero impression total. *)
Definition finite_entry (advData : AdvData) : Prop :=
  (exists T, totalImpressions (summary advData) = Fin T /\ ~ T == 0)
  /\ is_finite (overallVisitRate (summary advData)) = true
  /\ Forall rated_row (publishers_or_contexts advData)
  /\ Forall finite_row (or_empty (zipCodes advData)).

(** The rows [analyze] scores. *)
Definition scored_publishers (advData : AdvData) : list Scored :=
  map (enrich_publisher (overallVisitRate (summary advData))
                        (totalImpressions (summary advData)))
      (publishers_or_contexts advData).

Definition scored_zipCodes (advData : AdvData) : list Scored :=
  map (enrich_zip (overallVisitRate (summary advData))
                  (totalImpressions (summary advData))
                  (totalPop_of (or_empty (zipCodes advData))))
      (or_empty (zipCodes advData)).

Definition counts_of (advData : AdvData) : gmap string num :=
  match dmaZipCounts advData with Some m => m | None => ∅ end.

(** Priority above 0 and visits above 0. *)
Definition cons_candidate (s : Scored) : bool :=
  gt (reallocationPriority s) zero && gt (visits (row s)) zero.

(** Priority above [threshold]. *)
Definition agg_candidate (threshold : Z) (s : Scored) : bool :=
  gt (reallocationPriority s) (of_Z threshold).

(** How an emitted ZIP row [s] relates to the store's row [z]: the same
    ZIP code and counts, and a finite visit rate, the quotient
    [visits / impressions] when the impressions are positive, the row's own
    [visitRate] or 0 otherwise. *)
Definition emitted_from (z : Row) (s : Scored) : Prop :=
  key (row s) = key z
  /\ impressions (row s) = impressions z
  /\ visits (row s) = visits z
  /\ exists r,
       visitRate (row s) = Some (Fin r)
       /\ (gt (impressions z) zero = true ->
           Fin r = div (visits z) (impressions z))
       /\ (gt (impressions z) zero = false ->
           Fin r = or_else (visitRate z) zero).

End Notions.

Section AttributionNotions.
Import Attribution.

(** What a de-duplication result holds for an episode key. *)
Definition credited_for (rows : list ConversionFlag)
    (k : string * Episode) (c : ConversionFlag) : Prop :=
  episode_key c = k /\ In c rows /\ latest_in rows c.

End AttributionNotions.

(** ** Priority colours and tables ([getPriorityColor], [DataTable] and the
    tables of the render) *)

Module Display.
Import JS Optimizer.
#[local] Open Scope string_scope.

Definition getPriorityColor (priority : num) : string :=
  if gt priority (of_Z 100) then "#ff4444"
  else if gt priority (of_Z 50) then "#ff8844"
  else if gt priority zero then "#ffbb44"
  else if gt priority (of_Z (-50)) then "#88dd88"
  else "#44cc44".

(** [(r.reallocationPriority || r.index || 0)], for a row [r] on which
    either property may be missing. *)
Definition sort_key (reallocationPriority index : option num) : num :=
  or_else reallocationPriority (or_else index zero).

(** The comparator of [DataTable], for rows read through [key_of]. *)
Definition by_sort_key {A} (key_of : A -> num) (a b : A) : num :=
  sub (key_of b) (key_of a).

(** A scored row has no [index], a campaign no [reallocationPriority]. *)
Definition scored_key (s : Scored) : num :=
  sort_key (Some (reallocationPriority s)) None.

Definition indexed_key (c : Indexed) : num :=
  sort_key None (Some (index c)).

(** What a [DataTable] renders: nothing, the panel with [emptyMessage], or
    the table with its rows in display order and, when it is given
    recommendations, the two reallocation cards. *)
Inductive Panel (A : Type) : Type :=
| NoPanel
| MessagePanel (emptyMessage : string)
| TablePanel (rows : list A) (recommendations : option Tiers).
Arguments NoPanel {A}.
Arguments MessagePanel {A} emptyMessage.
Arguments TablePanel {A} rows recommendations.

Definition DataTable {A} (key_of : A -> num) (data : list A)
    (recommendations : option Tiers) (emptyMessage : option string) : Panel A :=
  match data with
  | [] =>
      match emptyMessage with
      | Some m => if String.eqb m EmptyString then NoPanel else MessagePanel m
      | None => NoPanel
      end
  | _ :: _ => TablePanel (sort (by_sort_key key_of) data) recommendations
  end.

(** The tables of the render for analysed data; [None] is a table the
    render leaves out. *)
Record Tables : Type := {
  campaign_table : Panel Indexed;
  publisher_table : option (Panel Scored);
  context_table : option (Panel Scored);
  geo_table : Panel Scored;
  traffic_table : option (Panel Scored)
}.

(** [data.trafficSources.map(t => ({ ...t, reallocationPriority:
    calcPriority(t, data.summary.overallVisitRate,
    data.summary.totalImpressions) }))] *)
Definition traffic_rows (d : Data) : list Scored :=
  map (enrich_publisher (overallVisitRate (d_summary d))
                        (totalImpressions (d_summary d)))
      (d_trafficSources d).

Definition render (d : Data) : Tables :=
  {| campaign_table :=
       DataTable indexed_key (d_campaigns d) None
         (Some "No campaign-level data available for this advertiser");
     publisher_table :=
       match type d with
       | store_visits =>
           Some (DataTable scored_key (d_publishers d) (pubRecommendations d)
                   (if d_noPublisherData d
                    then Some "Publisher attribution not available for this advertiser (Causal iQ data limitation)"
                    else None))
       | web_visits => None
       end;
     context_table :=
       match type d, d_contexts d with
       | web_visits, _ :: _ =>
           Some (DataTable scored_key (d_contexts d) (pubRecommendations d) None)
       | _, _ => None
       end;
     geo_table :=
       DataTable scored_key (d_zipCodes d) (Some (geoRecommendations d)) None;
     traffic_table :=
       match type d, d_trafficSources d with
       | web_visits, _ :: _ =>
           Some (DataTable scored_key (traffic_rows d) None None)
       | _, _ => None
       end |}.

End Display.

(** ** The component state: sidebar, selection and the analysis timer *)

Module App.
Import JS Optimizer.
#[local] Open Scope string_scope.

(** [Math.max] and [Math.min] of two Numbers: [NaN] as soon as one is. *)
Definition Math_max (x y : num) : num :=
  match x, y with
  | NaN, _ | _, NaN => NaN
  | _, _ => if gt x y then x else y
  end.

Definition Math_min (x y : num) : num :=
  match x, y with
  | NaN, _ | _, NaN => NaN
  | _, _ => if gt x y then y else x
  end.

Definition minSidebarWidth : num := of_Z 240.
Definition maxSidebarWidth : num := of_Z 450.

(** The state hooks of the component that the handlers below read or set.
    [timer] is the callback [analyzeData] has handed to [setTimeout] and
    that has not run yet, as the values of [selectedAgency] and
    [selectedAdvertiser] it closed over. *)
Record State : Type := {
  agencies : list (string * string * string);
  advertisers : list (string * string);
  selectedAgency : string;
  selectedAdvertiser : string;
  agencySearch : string;
  expandedAgency : string;
  loading : bool;
  data : option Data;
  sidebarWidth : num;
  sidebarCollapsed : bool;
  isResizing : bool;
  timer : option (string * string)
}.

Definition initial : State :=
  {| agencies := []; advertisers := []; selectedAgency := EmptyString;
     selectedAdvertiser := EmptyString; agencySearch := EmptyString;
     expandedAgency := EmptyString; loading := false; data := None;
     sidebarWidth := of_Z 320; sidebarCollapsed := false; isResizing := false;
     timer := None |}.

Definition setAgencies (v : list (string * string * string)) (s : State) : State :=
  {| agencies := v; advertisers := advertisers s;
     selectedAgency := selectedAgency s;
     selectedAdvertiser := selectedAdvertiser s;
     agencySearch := agencySearch s; expandedAgency := expandedAgency s;
     loading := loading s; data := data s; sidebarWidth := sidebarWidth s;
     sidebarCollapsed := sidebarCollapsed s; isResizing := isResizing s;
     timer := timer s |}.

Definition setAdvertisers (v : list (string * string)) (s : State) : State :=
  {| agencies := agencies s; advertisers := v;
     selectedAgency := selectedAgency s;
     selectedAdvertiser := selectedAdvertiser s;
     agencySearch := agencySearch s; expandedAgency := expandedAgency s;
     loading := loading s; data := data s; sidebarWidth := sidebarWidth s;
     sidebarCollapsed := sidebarCollapsed s; isResizing := isResizing s;
     timer := timer s |}.

Definition setSelectedAgency (v : string) (s : State) : State :=
  {| agencies := agencies s; advertisers := advertisers s;
     selectedAgency := v; selectedAdvertiser := selectedAdvertiser s;
     agencySearch := agencySearch s; expandedAgency := expandedAgency s;
     loading := loading s; data := data s; sidebarWidth := sidebarWidth s;
     sidebarCollapsed := sidebarCollapsed s; isResizing := isResizing s;
     timer := timer s |}.

Definition setSelectedAdvertiser (v : string) (s : State) : State :=
  {| agencies := agencies s; advertisers := advertisers s;
     selectedAgency := selectedAgency s; selectedAdvertiser := v;
     agencySearch := agencySearch s; expandedAgency := expandedAgency s;
     loading := loading s; data := data s; sidebarWidth := sidebarWidth s;
     sidebarCollapsed := sidebarCollapsed s; isResizing := isResizing s;
     timer := timer s |}.

Definition setAgencySearch (v : string) (s : State) : State :=
  {| agencies := agencies s; advertisers := advertisers s;
     selectedAgency := selectedAgency s;
     selectedAdvertiser := selectedAdvertiser s; agencySearch := v;
     expandedAgency := expandedAgency s; loading := loading s;
     data := data s; sidebarWidth := sidebarWidth s;
     sidebarCollapsed := sidebarCollapsed s; isResizing := isResizing s;
     timer := timer s |}.

Definition setExpandedAgency (v : string) (s : State) : State :=
  {| agencies := agencies s; advertisers := advertisers s;
     selectedAgency := selectedAgency s;
     selectedAdvertiser := selectedAdvertiser s;
     agencySearch := agencySearch s; expandedAgency := v;
     loading := loading s; data := data s; sidebarWidth := sidebarWidth s;
     sidebarCollapsed := sidebarCollapsed s; isResizing := isResizing s;
     timer := timer s |}.

Definition setLoading (v : bool) (s : State) : State :=
  {| agencies := agencies s; advertisers := advertisers s;
     selectedAgency := selectedAgency s;
     selectedAdvertiser := selectedAdvertiser s;
     agencySearch := agencySearch s; expandedAgency := expandedAgency s;
     loading := v; data := data s; sidebarWidth := sidebarWidth s;
     sidebarCollapsed := sidebarCollapsed s; isResizing := isResizing s;
     timer := timer s |}.

Definition setData (v : option Data) (s : State) : State :=
  {| agencies := agencies s; advertisers := advertisers s;
     selectedAgency := selectedAgency s;
     selectedAdvertiser := selectedAdvertiser s;
     agencySearch := agencySearch s; expandedAgency := expandedAgency s;
     loading := loading s; data := v; sidebarWidth := sidebarWidth s;
     sidebarCollapsed := sidebarCollapsed s; isResizing := isResizing s;
     timer := timer s |}.

Definition setSidebarWidth (v : num) (s : State) : State :=
  {| agencies := agencies s; advertisers := advertisers s;
     selectedAgency := selectedAgency s;
     selectedAdvertiser := selectedAdvertiser s;
     agencySearch := agencySearch s; expandedAgency := expandedAgency s;
     loading := loading s; data := data s; sidebarWidth := v;
     sidebarCollapsed := sidebarCollapsed s; isResizing := isResizing s;
     timer := timer s |}.

Definition setSidebarCollapsed (v : bool) (s : State) : State :=
  {| agencies := agencies s; advertisers := advertisers s;
     selectedAgency := selectedAgency s;
     selectedAdvertiser := selectedAdvertiser s;
     agencySearch := agencySearch s; expandedAgency := expandedAgency s;
     loading := loading s; data := data s; sidebarWidth := sidebarWidth s;
     sidebarCollapsed := v; isResizing := isResizing s; timer := timer s |}.

Definition setIsResizing (v : bool) (s : State) : State :=
  {| agencies := agencies s; advertisers := advertisers s;
     selectedAgency := selectedAgency s;
     selectedAdvertiser := selectedAdvertiser s;
     agencySearch := agencySearch s; expandedAgency := expandedAgency s;
     loading := loading s; data := data s; sidebarWidth := sidebarWidth s;
     sidebarCollapsed := sidebarCollapsed s; isResizing := v;
     timer := timer s |}.

Definition setTimer (v : option (string * string)) (s : State) : State :=
  {| agencies := agencies s; advertisers := advertisers s;
     selectedAgency := selectedAgency s;
     selectedAdvertiser := selectedAdvertiser s;
     agencySearch := agencySearch s; expandedAgency := expandedAgency s;
     loading := loading s; data := data s; sidebarWidth := sidebarWidth s;
     sidebarCollapsed := sidebarCollapsed s; isResizing := isResizing s;
     timer := v |}.


Definition handleMouseDown (s : State) : State := setIsResizing true s.

Definition handleMouseMove (clientX : num) (s : State) : State :=
  if negb (isResizing s) then s
  else setSidebarWidth
         (Math_min (Math_max clientX minSidebarWidth) maxSidebarWidth) s.

Definition handleMouseUp (s : State) : State := setIsResizing false s.

(** What the user and the environment do to the component. *)
Inductive Event : Type :=
| Mount
| Search (text : string)
| AgencyClick (agencyId : string)
| AdvertiserClick (advId : string)
| AnalyzeClick
| TimerFire
| CollapseClick
| HandleMouseDown
| MouseMove (clientX : num)
| MouseUp.

Section Component.

(** The tables of the component, and the test
    [name.toLowerCase().includes(agencySearch.toLowerCase())]. *)
Variable realAgencies : list (string * string * string).
Variable realAdvertisers : gmap string (list (string * string)).
Variable advertiserData : gmap string AdvData.
Variable name_includes : string -> string -> bool.

(** [realAdvertisers] is read as the map of its own properties. *)
Definition handleAgencyClick (agencyId : string) (s : State) : State :=
  if String.eqb (expandedAgency s) agencyId
  then setExpandedAgency EmptyString s
  else setAdvertisers (default [] (realAdvertisers !! agencyId))
         (setData None
            (setSelectedAdvertiser EmptyString
               (setSelectedAgency agencyId
                  (setExpandedAgency agencyId s)))).

(** [onClick] of an advertiser row. *)
Definition handleAdvertiserClick (advId : string) (s : State) : State :=
  setData None (setSelectedAdvertiser advId s).

(** [analyzeData], up to the call of [setTimeout]. *)
Definition analyzeData_start (s : State) : State :=
  if String.eqb (selectedAdvertiser s) EmptyString then s
  else setTimer (Some (selectedAgency s, selectedAdvertiser s))
         (setLoading true s).

(** The callback of [analyzeData], closed over the selection [(agency,
    advertiser)] of the render the button was clicked in. *)
Definition analyzeData_callback (selection : string * string) (s : State)
  : State :=
  match advertiserData !! snd selection with
  | None => setLoading false s
  | Some advData =>
      setLoading false (setData (Some (analyze (fst selection) advData)) s)
  end.

(** The agencies the sidebar lists. *)
Definition agency_shown (s : State) (a : string * string * string) : bool :=
  String.eqb (agencySearch s) EmptyString
  || name_includes (snd (fst a)) (agencySearch s).

Definition shown_agencies (s : State) : list (string * string * string) :=
  List.filter (agency_shown s) (agencies s).

(** The advertiser rows the sidebar lists: those of [advertisers], under
    each listed agency that is the expanded one. *)
Definition advertiser_rows (s : State) : list string :=
  flat_map (fun a => if String.eqb (expandedAgency s) (fst (fst a))
                     then map fst (advertisers s) else [])
           (shown_agencies s).

(** One event.  A click on an element the render does not show, or that is
    disabled, cannot happen ([None]); a mouse move or release without a
    listener changes nothing. *)
Definition step (s : State) (e : Event) : option State :=
  match e with
  | Mount => Some (setAgencies realAgencies s)
  | Search text =>
      if sidebarCollapsed s then None else Some (setAgencySearch text s)
  | AgencyClick agencyId =>
      if negb (sidebarCollapsed s)
         && existsb (fun a => String.eqb (fst (fst a)) agencyId)
                    (shown_agencies s)
      then Some (handleAgencyClick agencyId s) else None
  | AdvertiserClick advId =>
      if negb (sidebarCollapsed s)
         && existsb (String.eqb advId) (advertiser_rows s)
      then Some (handleAdvertiserClick advId s) else None
  | AnalyzeClick =>
      if negb (sidebarCollapsed s)
         && negb (String.eqb (selectedAdvertiser s) EmptyString)
         && negb (loading s)
      then Some (analyzeData_start s) else None
  | TimerFire =>
      match timer s with
      | Some selection =>
          Some (analyzeData_callback selection (setTimer None s))
      | None => None
      end
  | CollapseClick =>
      Some (setSidebarCollapsed (negb (sidebarCollapsed s)) s)
  | HandleMouseDown =>
      if sidebarCollapsed s then None else Some (handleMouseDown s)
  | MouseMove clientX =>
      Some (if isResizing s then handleMouseMove clientX s else s)
  | MouseUp => Some (if isResizing s then handleMouseUp s else s)
  end.

Fixpoint run (s : State) (events : list Event) : option State :=
  match events with
  | [] => Some s
  | e :: events' =>
      match step s e with
      | Some s' => run s' events'
      | None => None
      end
  end.

End Component.

(** The tables the component ships with. *)
Definition realAgencies : list (string * string * string) :=
  [ ("2514", "MNTN", "Store");
    ("2234", "Magnite", "Store");
    ("1813", "Causal iQ", "Store");
    ("1480", "ViacomCBS WhoSay", "Web") ].

Definition realAdvertisers : gmap string (list (string * string)) :=
  list_to_map
    [ ("2514", [ ("45143", "Noodles & Company"); ("27828", "First Watch");
                 ("37704", "Sky Zone"); ("45346", "Northern Tool");
                 ("32623", "Visit PA") ]);
      ("2234", [ ("40143", "Mountain West Bank"); ("39323", "Visit Pensacola") ]);
      ("1813", [ ("45141", "Lowes TTD"); ("8123", "AutoZone");
                 ("27588", "Golden Nugget Casino");
                 ("7389", "Space Coast Tourism") ]);
      ("1480", [ ("40514", "Lean RX") ]) ].

(** [toLowerCase] and [includes] on ASCII text. *)
Definition lower (c : ascii) : ascii :=
  let n := nat_of_ascii c in
  if ((65 <=? n) && (n <=? 90))%nat then ascii_of_nat (n + 32) else c.

Fixpoint toLowerCase (s : string) : string :=
  match s with
  | EmptyString => EmptyString
  | String c s' => String (lower c) (toLowerCase s')
  end.

Fixpoint includes (s part : string) : bool :=
  String.prefix part s
  || match s with
     | EmptyString => false
     | String _ s' => includes s' part
     end.

Definition name_includes (name agencySearch : string) : bool :=
  includes (toLowerCase name) (toLowerCase agencySearch).

End App.

(** ** CSV export ([exportToCSV]) *)

Module Csv.
Import JS Optimizer.
#[local] Open Scope string_scope.

(** The value of a property of a row object. *)
Inductive value : Type :=
| Number (n : num)
| Str (s : string)
| Undefined.

(** A column of a table: the property it shows, its header and the
    function, if any, that formats a value of the property. *)
Record Column : Type := {
  col_key : string;
  label : string;
  format : option (value -> string)
}.

(** A row object, as the map of its own properties. *)
Definition Item : Type := gmap string value.

Definition get (item : Item) (k : string) : value :=
  default Undefined (item !! k).

(** [s.replace('%', '')]: the first ['%'] of [s] is removed. *)
Fixpoint remove_percent (s : string) : string :=
  match s with
  | EmptyString => EmptyString
  | String c s' =>
      if Ascii.eqb c "%"%char then s' else String c (remove_percent s')
  end.

Definition newline : string := String (ascii_of_nat 10) EmptyString.

Section Join.

(** The string of a Number ([Number::toString]). *)
Variable number_to_string : num -> string.

(** The text [Array.prototype.join] gives an element: nothing for
    [undefined]. *)
Definition to_text (v : value) : string :=
  match v with
  | Number n => number_to_string n
  | Str s => s
  | Undefined => EmptyString
  end.

Definition join (sep : string) (row : list value) : string :=
  String.concat sep (map to_text row).

(** The cell of [item] under the column [c]. *)
Definition cell (item : Item) (c : Column) : value :=
  let val := get item (col_key c) in
  match format c with
  | Some f => Str (remove_percent (f val))
  | None => val
  end.

Definition headers (columns : list Column) : list value :=
  map (fun c => Str (label c)) columns.

Definition rows (items : list Item) (columns : list Column)
  : list (list value) :=
  map (fun item => map (cell item) columns) items.

(** The lines of the file: [[headers, ...rows].map(row => row.join(','))]. *)
Definition lines (items : list Item) (columns : list Column) : list string :=
  map (join ",") (headers columns :: rows items columns).

(** [exportToCSV]: the name and the text of the file the browser is made to
    download, [None] when the function returns before. *)
Definition exportToCSV (items : option (list Item)) (filename : string)
    (columns : list Column) : option (string * string) :=
  match items with
  | None | Some [] => None
  | Some items =>
      Some (filename ++ ".csv", String.concat newline (lines items columns))
  end.

End Join.

(** The row object of a scored ZIP row. *)
Definition opt_property (k : string) (v : option value)
  : list (string * value) :=
  match v with Some x => [(k, x)] | None => [] end.

Definition zip_item (s : Scored) : Item :=
  list_to_map
    ([ ("zip", Str (key (row s))) ]
     ++ opt_property "dma" (Str <$> dma (row s))
     ++ opt_property "population" (Number <$> population (row s))
     ++ [ ("impressions", Number (impressions (row s)));
          ("visits", Number (visits (row s))) ]
     ++ opt_property "visitRate" (Number <$> visitRate (row s))
     ++ [ ("reallocationPriority", Number (reallocationPriority s)) ]).

(** The columns of the geography table, for given formats of counts and
    rates. *)
Definition geo_columns (count_format rate_format : value -> string)
  : list Column :=
  [ {| col_key := "dma"; label := "DMA"; format := None |};
    {| col_key := "zip"; label := "ZIP"; format := None |};
    {| col_key := "impressions"; label := "Impressions";
       format := Some count_format |};
    {| col_key := "visits"; label := "Visits"; format := Some count_format |};
    {| col_key := "visitRate"; label := "Visit Rate";
       format := Some rate_format |};
    {| col_key := "reallocationPriority"; label := "Priority";
       format := None |} ].

(** The number of occurrences of a character. *)
Fixpoint occurrences (c : ascii) (s : string) : nat :=
  match s with
  | EmptyString => 0
  | String d s' => (if Ascii.eqb d c then 1 else 0) + occurrences c s'
  end.

Definition commas (s : string) : nat := occurrences ","%char s.

End Csv.

(** ** Visits by campaign or ZIP code (the documented reports)

    [[
    SELECT IO_ID as CAMPAIGN_ID, COUNT( * ) as W_VISITS
    FROM last_touch WHERE rn = 1 GROUP BY IO_ID
    ]] *)

Module Report.
Import Attribution.

Section GroupBy.

(** The grouping column, read from a row. *)
Context {K : Type} `{EqDecision K}.
Variable column : ConversionFlag -> K.

(** [SELECT column, COUNT( * ) FROM rows GROUP BY column] *)
Definition group_count (rows : list ConversionFlag) : list (K * nat) :=
  map (fun k => (k, length (filter (fun f => column f = k) rows)))
      (remove_dups (map column rows)).

Definition total (groups : list (K * nat)) : nat :=
  foldr (fun g n => (snd g + n)%nat) 0%nat groups.

(** [report] is a result of the report on [rows]: the last-touch rows,
    counted by [column]. *)
Definition visits_by (rows : list ConversionFlag) (report : list (K * nat))
  : Prop :=
  exists out, dedupes_to rows out /\ report = group_count out.

End GroupBy.

End Report.

(** ** Derived notions for the colours *)

Section Colours.
#[local] Open Scope string_scope.

(** The colours of a priority above 0. *)
Definition warm_colours : list string := ["#ff4444"; "#ff8844"; "#ffbb44"].

End Colours.

(** ** Derived notions for the component state *)

Section AppNotions.
Import JS Optimizer App.


(** [advId] is an advertiser of the agency [agencyId]. *)
Definition advertiser_of (realAdvertisers : gmap string (list (string * string)))
    (agencyId advId : string) : Prop :=
  In advId (map fst (default [] (realAdvertisers !! agencyId))).

(** What holds of the selection in every state the component reaches. *)
Definition selection_invariant
    (realAdvertisers : gmap string (list (string * string)))
    (advertiserData : gmap string AdvData) (s : State) : Prop :=
  advertisers s = default [] (realAdvertisers !! selectedAgency s)
  /\ (expandedAgency s = EmptyString \/ expandedAgency s = selectedAgency s)
  /\ (selectedAdvertiser s = EmptyString
      \/ advertiser_of realAdvertisers (selectedAgency s) (selectedAdvertiser s))
  /\ (loading s = true <-> timer s <> None)
  /\ (forall agencyId advId,
        timer s = Some (agencyId, advId) ->
        advId <> EmptyString /\ advertiser_of realAdvertisers agencyId advId)
  /\ (forall d,
        data s = Some d ->
        exists agencyId advId advData,
          advertiser_of realAdvertisers agencyId advId
          /\ advertiserData !! advId = Some advData
          /\ d = analyze agencyId advData).

End AppNotions.

(** ** Example sessions and exports *)

Module Sessions.
Import JS Optimizer App.
#[local] Open Scope string_scope.


(** The agency MNTN is opened and Noodles & Company selected. *)
Definition select_Noodles : list Event :=
  [ Mount; AgencyClick "2514"; AdvertiserClick "45143" ].

Definition Noodles_selected : State :=
  {| agencies := realAgencies;
     advertisers := default [] (realAdvertisers !! "2514");
     selectedAgency := "2514"; selectedAdvertiser := "45143";
     agencySearch := EmptyString; expandedAgency := "2514";
     loading := false; data := None; sidebarWidth := of_Z 320;
     sidebarCollapsed := false; isResizing := false; timer := None |}.

End Sessions.

Module CsvExamples.
Import JS Optimizer Csv.
#[local] Open Scope string_scope.

(** A text for Numbers that shows the integer part only. *)
Definition integer_text (n : num) : string :=
  match n with
  | Fin q => pretty (Qfloor q)
  | PosInf => "Infinity"
  | NegInf => "-Infinity"
  | NaN => "NaN"
  end.

Definition count_format (v : value) : string := to_text integer_text v.

Definition rate_format (v : value) : string :=
  to_text integer_text v ++ "%".

(** The ZIP row 20068 of Noodles & Company, as [analyze] scores it. *)
Definition zip_20068 : Scored :=
  enrich_zip (Fin 0.00395) (Fin 7624633) (Fin 403012)
    (Store.zip_row "20068" "WASHINGTON, DC" 2207 171308 267).

End CsvExamples.

(** * Properties *)

(** Tactics for rows and tables given in full. *)
Ltac finite_rows :=
  repeat (apply List.Forall_cons || apply List.Forall_nil);
  repeat split; try reflexivity; try discriminate.


(** ** Arithmetic on Numbers *)

Section NumFacts.
Import JS.

Lemma Qzero_b_true q : Qzero_b q = true <-> q == 0.
Proof. unfold Qzero_b. apply Qeq_bool_iff. Qed.

Lemma Qzero_b_false q : Qzero_b q = false <-> ~ q == 0.
Proof.
  rewrite <- Qzero_b_true. destruct (Qzero_b q); split; congruence.
Qed.

Lemma Qpos_b_true q : Qpos_b q = true <-> 0 < q.
Proof.
  unfold Qpos_b. destruct (Qlt_le_dec 0 q); split; try congruence; try tauto.
  intros Hq. exfalso. lra.
Qed.

Lemma Qneg_b_true q : Qneg_b q = true <-> q < 0.
Proof.
  unfold Qneg_b. destruct (Qlt_le_dec q 0); split; try congruence; try tauto.
  intros Hq. exfalso. lra.
Qed.

Lemma gt_Fin_true a b : gt (Fin a) (Fin b) = true <-> b < a.
Proof.
  simpl. destruct (Qlt_le_dec b a); split; try congruence; try tauto.
  intros Hq. exfalso. lra.
Qed.

Lemma gt_Fin_false a b : gt (Fin a) (Fin b) = false <-> a <= b.
Proof.
  simpl. destruct (Qlt_le_dec b a); split; try congruence; try tauto.
  intros Hq. exfalso. lra.
Qed.

Lemma div_Fin a b : ~ b == 0 -> div (Fin a) (Fin b) = Fin (a / b).
Proof. intros Hb. simpl. apply Qzero_b_false in Hb. now rewrite Hb. Qed.

Lemma truthy_Fin q : truthy (Fin q) = true <-> ~ q == 0.
Proof.
  simpl. rewrite negb_true_iff. apply Qzero_b_false.
Qed.

Lemma num_eq_refl x : num_eq x x.
Proof. destruct x; simpl; auto. reflexivity. Qed.

Lemma num_eq_sym x y : num_eq x y -> num_eq y x.
Proof. destruct x, y; simpl; auto. intros H. now symmetry. Qed.


Lemma is_finite_true x : is_finite x = true <-> exists q, x = Fin q.
Proof.
  destruct x; simpl; split; try congruence; eauto; intros [q Hq]; congruence.
Qed.

(** A quotient, a difference and a product stay non-finite once an operand
    is. *)
Lemma div_not_finite_l x y : is_finite x = false -> is_finite (div x y) = false.
Proof.
  destruct x, y; simpl; try congruence; auto; intros _;
    match goal with |- context [Qneg_b ?b] => destruct (Qneg_b b) end; auto.
Qed.

Lemma sub_not_finite_l x q : is_finite x = false -> is_finite (sub x (Fin q)) = false.
Proof. destruct x; simpl; congruence. Qed.

Lemma mul_not_finite_l x q :
  is_finite x = false -> is_finite (mul x (Fin q)) = false.
Proof.
  destruct x; simpl; try congruence; intros _; unfold signed_inf;
    destruct (Qzero_b q); auto; destruct (Bool.eqb _ _); auto.
Qed.

Lemma div_by_zero_not_finite a b : b == 0 -> is_finite (div (Fin a) (Fin b)) = false.
Proof.
  intros Hb. simpl. apply Qzero_b_true in Hb. rewrite Hb.
  destruct (Qpos_b a); auto. destruct (Qneg_b a); auto.
Qed.

End NumFacts.

(** ** Rounding *)

Section Rounding.

(** [Spec.round x] is the integer [n] with [n - 1/2 <= x < n + 1/2]. *)
Lemma round_bounds x :
  inject_Z (Spec.round x) - (1 # 2) <= x /\ x < inject_Z (Spec.round x) + (1 # 2).
Proof.
  unfold Spec.round.
  pose proof (Qfloor_le (x + (1 # 2))) as Hl.
  pose proof (Qlt_floor (x + (1 # 2))) as Hu.
  rewrite inject_Z_plus in Hu. change (inject_Z 1) with 1 in Hu. split; lra.
Qed.

Lemma round_unique x (n : Z) :
  inject_Z n - (1 # 2) <= x -> x < inject_Z n + (1 # 2) -> Spec.round x = n.
Proof.
  intros Hl Hu. destruct (round_bounds x) as [Hl' Hu'].
  assert (H1 : inject_Z (Spec.round x) < inject_Z (n + 1)).
  { rewrite inject_Z_plus. change (inject_Z 1) with 1. lra. }
  assert (H2 : inject_Z n < inject_Z (Spec.round x + 1)).
  { rewrite inject_Z_plus. change (inject_Z 1) with 1. lra. }
  rewrite <- Zlt_Qlt in H1, H2. lia.
Qed.

Lemma round_comp x y : x == y -> Spec.round x = Spec.round y.
Proof. intros H. unfold Spec.round. now rewrite H. Qed.


Lemma Math_round_Fin q : JS.Math_round (JS.Fin q) = JS.of_Z (Spec.round q).
Proof. reflexivity. Qed.

End Rounding.

(** ** Scoring: [calcPriority], [calcIndex] and the ZIP enrichment *)

Section Scoring.
Import JS Optimizer.

Lemma gt_of_Z a b : gt (of_Z a) (of_Z b) = (b <? a)%Z.
Proof.
  unfold of_Z. destruct (Z.ltb_spec b a) as [H | H].
  - apply gt_Fin_true. now rewrite <- Zlt_Qlt.
  - apply gt_Fin_false. now rewrite <- Zle_Qle.
Qed.


Lemma sub_of_Z a b : num_eq (sub (of_Z a) (of_Z b)) (of_Z (a - b)).
Proof.
  unfold of_Z. simpl. unfold Z.sub.
  rewrite inject_Z_plus, inject_Z_opp. reflexivity.
Qed.

Lemma calcPriority_Fin item i r T b :
  impressions item = Fin i -> visitRate item = Some (Fin r) -> ~ T == 0 ->
  calcPriority item (Fin b) (Fin T)
  = of_Z (Spec.round (1000 * Spec.impression_share i T - 100 * perf_ratio r b)).
Proof.
  intros Hi Hr HT. unfold calcPriority, perf_ratio. rewrite Hi, Hr.
  rewrite (div_Fin _ _ HT). cbn [to_num].
  destruct (Qlt_le_dec 0 b) as [Hb | Hb].
  - assert (Hg : gt (Fin b) zero = true) by now apply gt_Fin_true.
    rewrite Hg, div_Fin by lra.
    cbn [mul sub add neg of_Z]. rewrite Math_round_Fin. f_equal.
    apply round_comp. unfold Spec.impression_share.
    change (inject_Z 1000) with 1000. change (inject_Z 100) with 100. ring.
  - assert (Hg : gt (Fin b) zero = false) by now apply gt_Fin_false.
    rewrite Hg.
    cbn [mul sub add neg of_Z zero]. rewrite Math_round_Fin. f_equal.
    apply round_comp. unfold Spec.impression_share.
    change (inject_Z 1000) with 1000. change (inject_Z 100) with 100. ring.
Qed.

Lemma calcIndex_Fin r b :
  0 <= b -> calcIndex (Fin r) (Fin b) = of_Z (Spec.performance_index r b).
Proof.
  intros Hb. unfold calcIndex, Spec.performance_index.
  destruct (Qlt_le_dec 0 b) as [Hpos | Hnpos].
  - assert (Hg : gt (Fin b) zero = true) by now apply gt_Fin_true.
    assert (Hz : Qeq_bool b 0 = false).
    { apply Qzero_b_false. lra. }
    rewrite Hg, Hz, div_Fin by lra.
    cbn [mul of_Z]. rewrite Math_round_Fin. f_equal.
    apply round_comp. change (inject_Z 100) with 100. field. lra.
  - assert (Hg : gt (Fin b) zero = false) by now apply gt_Fin_false.
    assert (Hz : Qeq_bool b 0 = true).
    { apply Qzero_b_true. lra. }
    now rewrite Hg, Hz.
Qed.



(** The priority is an integer: two rows whose shares differ by one
    impression in two million get the same priority. *)
Lemma priority_rounding_plateau :
  calcPriority (Store.rated "row" 1000000 1000 0.001) (Fin 0.004) (of_Z 2000000)
  = calcPriority (Store.rated "row" 1000001 1000 0.001) (Fin 0.004)
                 (of_Z 2000000).
Proof. vm_compute. reflexivity. Qed.


Lemma zipPopShare_Fin z p P :
  or_else (population z) zero = Fin p -> 0 < P ->
  zipPopShare (Fin P) z = Fin (Spec.population_share p P).
Proof.
  intros Hp HP. unfold zipPopShare.
  assert (Hg : gt (Fin P) zero = true) by now apply gt_Fin_true.
  rewrite Hg, Hp, div_Fin by lra. reflexivity.
Qed.

Lemma popWeightedIdx_Fin z i p T P :
  impressions z = Fin i -> or_else (population z) zero = Fin p -> 0 <= p ->
  ~ T == 0 -> 0 < P ->
  popWeightedIdx (Fin T) (Fin P) z
  = of_Z (Spec.pop_weighted_index (Spec.impression_share i T)
                                  (Spec.population_share p P)).
Proof.
  intros Hi Hp Hp0 HT HP. unfold popWeightedIdx, Spec.pop_weighted_index.
  rewrite (zipPopShare_Fin z p P Hp HP).
  unfold zipImpShare. rewrite Hi, (div_Fin _ _ HT).
  assert (Hps : 0 <= Spec.population_share p P).
  { unfold Spec.population_share, Qdiv. apply Qmult_le_0_compat; [assumption |].
    apply Qlt_le_weak, Qinv_lt_0_compat, HP. }
  destruct (Qlt_le_dec 0 (Spec.population_share p P)) as [Hpos | Hnpos].
  - assert (Hg : gt (Fin (Spec.population_share p P)) zero = true)
      by now apply gt_Fin_true.
    assert (Hz : Qeq_bool (Spec.population_share p P) 0 = false).
    { apply Qzero_b_false. lra. }
    rewrite Hg, Hz, div_Fin by lra.
    cbn [mul of_Z]. rewrite Math_round_Fin. f_equal.
    apply round_comp. unfold Spec.impression_share.
    change (inject_Z 100) with 100. field. split; lra.
  - assert (Hg : gt (Fin (Spec.population_share p P)) zero = false)
      by now apply gt_Fin_false.
    assert (Hz : Qeq_bool (Spec.population_share p P) 0 = true).
    { apply Qzero_b_true. lra. }
    now rewrite Hg, Hz.
Qed.

(** In exact arithmetic, for a ZIP row with finite impressions [i], a
    population [p >= 0] on record (0 when it has none) and the visit rate
    [r] the enrichment gives it, against positive totals [T] and [P] and a
    positive baseline [b]: the population-weighted index is
    [round(100 * impression_share / population_share)], 0 when the
    population share is 0, and the priority is that index minus the
    performance index when the index is positive, the generic priority
    otherwise. *)
Lemma zip_priority_exact :
  forall z i p r T P b,
    impressions z = Fin i ->
    or_else (population z) zero = Fin p -> 0 <= p ->
    zip_visitRate z = Fin r ->
    0 < T -> 0 < P -> 0 < b ->
    let share := Spec.impression_share i T in
    let pop_share := Spec.population_share p P in
    popWeightedIdx (Fin T) (Fin P) z
    = of_Z (Spec.pop_weighted_index share pop_share)
    /\ (pop_share == 0 -> popWeightedIdx (Fin T) (Fin P) z = of_Z 0)
    /\ num_eq (reallocationPriority (enrich_zip (Fin b) (Fin T) (Fin P) z))
              (of_Z (Spec.geo_priority share pop_share r b)).
Proof.
  intros z i p r T P b Hi Hp Hp0 Hr HT HP Hb share pop_share.
  assert (HT' : ~ T == 0) by lra.
  pose proof (popWeightedIdx_Fin z i p T P Hi Hp Hp0 HT' HP) as Hpwi.
  fold share pop_share in Hpwi.
  split; [exact Hpwi |]. split.
  - intros Hz. rewrite Hpwi. unfold Spec.pop_weighted_index.
    apply Qzero_b_true in Hz. unfold Qzero_b in Hz. now rewrite Hz.
  - cbn [enrich_zip reallocationPriority].
    unfold zip_reallocationPriority, Spec.geo_priority.
    rewrite Hpwi. change zero with (of_Z 0). rewrite gt_of_Z.
    destruct (0 <? Spec.pop_weighted_index share pop_share)%Z.
    + unfold perfIdx. rewrite Hr, calcIndex_Fin by lra. apply sub_of_Z.
    + rewrite (calcPriority_Fin (priority_item z) i r T b) by
        (try assumption; cbn [priority_item impressions visitRate]; congruence).
      unfold Spec.priority, perf_ratio.
      destruct (Qlt_le_dec 0 b); [apply num_eq_refl | lra].
Qed.

End Scoring.

(** ** The scores in binary64 *)

Section Binary64Scores.
Import Binary64.
#[local] Open Scope float_scope.

(** The product of two binary64 numbers does not depend on their order. *)
Lemma SF64mul_comm x y : SF64mul x y = SF64mul y x.
Proof.
  unfold SF64mul, SFmul.
  destruct x as [sx | sx | | sx mx ex], y as [sy | sy | | sy my ey];
    try reflexivity; rewrite (xorb_comm sx sy); try reflexivity.
  now rewrite Pos.mul_comm, Z.add_comm.
Qed.

Lemma float_mul_comm x y : x * y = y * x.
Proof.
  apply Prim2SF_inj. rewrite !FloatAxioms.mul_spec. apply SF64mul_comm.
Qed.

(** A positive number is not zero. *)
Lemma positive_not_zero x : (0 <? x) = true -> (x =? 0) = false.
Proof.
  rewrite FloatAxioms.ltb_spec, FloatAxioms.eqb_spec. change (Prim2SF 0) with (S754_zero false).
  unfold SFltb, SFeqb.
  destruct (Prim2SF x) as [s | s | | s m e]; cbn [SFcompare];
    try discriminate; destruct s; try discriminate; reflexivity.
Qed.

(** A number that is neither negative nor [NaN] is positive or zero. *)
Lemma not_negative_cases x :
  (0 <=? x) = true -> (0 <? x) = negb (x =? 0).
Proof.
  rewrite FloatAxioms.leb_spec, FloatAxioms.ltb_spec, FloatAxioms.eqb_spec.
  change (Prim2SF 0) with (S754_zero false).
  unfold SFleb, SFltb, SFeqb.
  destruct (Prim2SF x) as [s | s | | s m e]; cbn [SFcompare];
    try discriminate; destruct s; try discriminate; reflexivity.
Qed.

Lemma calcPriority_formula i r T b :
  (0 <? b) = true ->
  calcPriority i r b T = Spec64.priority (Spec64.impression_share i T) r b.
Proof.
  intros Hb.
  unfold calcPriority, Spec64.priority, Spec64.round, Spec64.impression_share.
  rewrite Hb. now rewrite (float_mul_comm (i / T) 1000), (float_mul_comm (r / b) 100).
Qed.

Lemma calcIndex_formula r b :
  (0 <? b) = true -> calcIndex r b = Spec64.performance_index r b.
Proof.
  intros Hb. unfold calcIndex, Spec64.performance_index, Spec64.round.
  rewrite Hb, (positive_not_zero b Hb). now rewrite (float_mul_comm (r / b) 100).
Qed.

Lemma popWeightedIdx_formula share pop_share :
  (0 <=? pop_share) = true ->
  popWeightedIdx share pop_share = Spec64.pop_weighted_index share pop_share.
Proof.
  intros Hp. unfold popWeightedIdx, Spec64.pop_weighted_index, Spec64.round.
  rewrite (not_negative_cases pop_share Hp).
  destruct (pop_share =? 0); cbn [negb]; [reflexivity |].
  now rewrite (float_mul_comm (share / pop_share) 100).
Qed.

(** C2 (as amended).  [calcPriority] computes the formula of the
    specification in the arithmetic of JavaScript Numbers: on a row with
    impressions [i] and visit rate [r], for a total [T] and a baseline
    [b > 0], it returns [round(1000*(i/T) - 100*(r/b))], every operation
    rounded to binary64 and [round] being [Math.round], the nearest integer
    of the computed value with a tie going up (0.5 gives 1, -12.5 gives
    -12).  The row with 1,000,000 impressions and rate 0.001 of a 2,000,000
    total scores 475 against the baseline 0.004. *)
Theorem C2_calcPriority_formula :
  (forall i r T b : float,
      (0 <? b) = true ->
      calcPriority i r b T
      = Spec64.round (1000 * (i / T) - 100 * (r / b)))
  /\ calcPriority (of_Z 1000000) (of_Q 0.001) (of_Q 0.004) (of_Z 2000000)
     = of_Z 475
  /\ calcPriority (of_Z 1) 0 (of_Q 0.004) (of_Z 2000) = of_Z 1
  /\ calcPriority 0 (of_Z 1) (of_Z 8) (of_Z 1) = of_Z (-12).
Proof.
  split; [| repeat split; vm_compute; reflexivity].
  intros i r T b Hb. now rewrite (calcPriority_formula i r T b Hb).
Qed.

(** The publisher HBO Max of Noodles & Company. *)
Lemma C2_witness_HBO_Max :
  calcPriority (of_Z 1974033) (of_Q 0.000467) (of_Q 0.00395) (of_Z 7624633)
  = Spec64.round (1000 * (of_Z 1974033 / of_Z 7624633)
                  - 100 * (of_Q 0.000467 / of_Q 0.00395)).
Proof.
  apply (proj1 C2_calcPriority_formula). vm_compute. reflexivity.
Defined.

(** The priority is not always the rounding of the exact value of the
    formula.  For 1,001,000 impressions of a 2,000,000 total at rate 0.001
    against the baseline 0.004, the exact value is 475.5, which rounds to
    476; the value computed in binary64 lies below the tie, and
    [calcPriority] returns 475. *)
Lemma C2_counterexample_exact_tie :
  (0 < 2000000)%Q /\ (0 < 0.004)%Q
  /\ (1000 * (1001000 / 2000000) - 100 * (0.001 / 0.004) == 951 # 2)%Q
  /\ Spec.round (1000 * (1001000 / 2000000) - 100 * (0.001 / 0.004)) = 476%Z
  /\ calcPriority (of_Z 1001000) (of_Q 0.001) (of_Q 0.004) (of_Z 2000000)
     = of_Z 475
  /\ of_Z 475 <> of_Z 476.
Proof.
  repeat split; try (vm_compute; reflexivity).
  intros H. apply (f_equal Prim2SF) in H. vm_compute in H. discriminate.
Qed.

(** C3 (as amended).  The ZIP enrichment computes the formulas of the
    specification in the arithmetic of JavaScript Numbers, every operation
    rounded to binary64 and [round] being [Math.round].  For a ZIP row with
    its impression share, the population share the code gives it (the
    population, 0 when it has none, over the total population when that
    total is positive, 0 otherwise) and the visit rate the code gives it:
    the population-weighted index is 0 when the population share is not
    positive; when the population share is neither negative nor [NaN] the
    index is [round(100 * (impression_share / population_share))], 0 for a
    zero share, and against a positive baseline the priority is that index
    minus the performance index when the index is positive, the generic
    priority [round(1000*impression_share - 100*(visit_rate/baseline_rate))]
    otherwise. *)
Theorem C3_zip_priority :
  forall (impressions visits totalImps totalPop baseline : float)
         (visitRate population : option float),
    let share := Spec64.impression_share impressions totalImps in
    let pop_share := zipPopShare totalPop population in
    let rate := zip_visitRate impressions visits visitRate in
    ((0 <? totalPop) = true ->
     pop_share = Spec64.population_share (or_else population 0) totalPop)
    /\ ((0 <? totalPop) = false -> pop_share = 0)
    /\ ((0 <? pop_share) = false -> popWeightedIdx share pop_share = 0)
    /\ ((0 <=? pop_share) = true ->
        popWeightedIdx share pop_share
        = Spec64.pop_weighted_index share pop_share
        /\ ((pop_share =? 0) = true -> popWeightedIdx share pop_share = 0)
        /\ ((0 <? baseline) = true ->
            zip_reallocationPriority baseline totalImps totalPop
              impressions visits visitRate population
            = Spec64.geo_priority share pop_share rate baseline)).
Proof.
  intros impressions visits totalImps totalPop baseline visitRate population
         share pop_share rate.
  split; [| split; [| split]].
  - intros HP. unfold pop_share, zipPopShare. now rewrite HP.
  - intros HP. unfold pop_share, zipPopShare. now rewrite HP.
  - intros Hp. unfold popWeightedIdx. now rewrite Hp.
  - intros Hp.
    pose proof (popWeightedIdx_formula share pop_share Hp) as Hpwi.
    split; [exact Hpwi | split].
    + intros Hz. rewrite Hpwi. unfold Spec64.pop_weighted_index.
      now rewrite Hz.
    + intros Hb. unfold zip_reallocationPriority, Spec64.geo_priority.
      fold rate. unfold zipImpShare.
      fold (Spec64.impression_share impressions totalImps).
      fold share. fold pop_share. rewrite Hpwi.
      destruct (0 <? Spec64.pop_weighted_index share pop_share).
      * unfold perfIdx. now rewrite (calcIndex_formula rate baseline Hb).
      * apply (calcPriority_formula impressions rate totalImps baseline Hb).
Qed.

(** ZIP 80001 of Noodles & Company (22 residents, 131,503 impressions,
    798 visits). *)
Lemma C3_witness_zip_80001 :
  let share := Spec64.impression_share (of_Z 131503) (of_Z 7624633) in
  let pop_share := zipPopShare (of_Z 403012) (Some (of_Z 22)) in
  let rate := zip_visitRate (of_Z 131503) (of_Z 798) None in
  pop_share = Spec64.population_share (of_Z 22) (of_Z 403012)
  /\ popWeightedIdx share pop_share
     = Spec64.pop_weighted_index share pop_share
  /\ zip_reallocationPriority (of_Q 0.00395) (of_Z 7624633) (of_Z 403012)
       (of_Z 131503) (of_Z 798) None (Some (of_Z 22))
     = Spec64.geo_priority share pop_share rate (of_Q 0.00395).
Proof.
  intros share pop_share rate.
  destruct (C3_zip_priority (of_Z 131503) (of_Z 798) (of_Z 7624633)
              (of_Z 403012) (of_Q 0.00395) None (Some (of_Z 22)))
    as (Hshare & _ & _ & Hscore).
  destruct Hscore as (Hpwi & _ & Hprio); [vm_compute; reflexivity |].
  split; [| split].
  - apply Hshare. vm_compute. reflexivity.
  - exact Hpwi.
  - apply Hprio. vm_compute. reflexivity.
Defined.

(** The index and the priority of a ZIP row are not always the roundings
    of the exact values of the formulas.  For a ZIP code with 800 of 5,200
    residents, 2,050 of 13,000 impressions and 24 visits, against the
    baseline 0.004, the exact value of
    [100 * impression_share / population_share] is 102.5: the formulas give
    the index 103 and the priority 103 - 293 = -190, and the code, whose
    binary64 quotient lies below the tie, the index 102 and the priority
    -191. *)
Lemma C3_counterexample_exact_tie :
  (100 * Spec.impression_share 2050 13000 / Spec.population_share 800 5200
   == 205 # 2)%Q
  /\ Spec.pop_weighted_index (Spec.impression_share 2050 13000)
                             (Spec.population_share 800 5200) = 103%Z
  /\ Spec.geo_priority (Spec.impression_share 2050 13000)
                       (Spec.population_share 800 5200) (24 / 2050) 0.004
     = (-190)%Z
  /\ popWeightedIdx (zipImpShare (of_Z 13000) (of_Z 2050))
                    (zipPopShare (of_Z 5200) (Some (of_Z 800)))
     = of_Z 102
  /\ zip_reallocationPriority (of_Q 0.004) (of_Z 13000) (of_Z 5200)
       (of_Z 2050) (of_Z 24) None (Some (of_Z 800))
     = of_Z (-191).
Proof. repeat split; vm_compute; reflexivity. Qed.

End Binary64Scores.

(** ** Exact arithmetic against binary64 *)

Section Binary64Agreement.
Import JS Optimizer.

(** On the entries of the data store, binary64 arithmetic gives every
    campaign, publisher, context and ZIP code the score the exact model
    gives it. *)
Lemma binary64_same_scores_on_store :
  forallb Binary64.same_scores
          [Store.adv_45143; Store.adv_7389; Store.adv_40514] = true.
Proof. vm_compute. reflexivity. Qed.

(** The scenario of 1,000,000 impressions at rate 0.001 in binary64. *)
Lemma binary64_scenario_475 :
  Binary64.calcPriority (Binary64.of_Z 1000000) (Binary64.of_Q 0.001)
                        (Binary64.of_Q 0.004) (Binary64.of_Z 2000000)
  = Binary64.of_Z 475.
Proof. vm_compute. reflexivity. Qed.

(** Where the exact value of the expression is a tie, the two arithmetics
    can part.  With 1,001,000 impressions of 2,000,000 at rate 0.001
    against the baseline 0.004 the exact value is 475.5, which rounds to
    476, and the binary64 value lies below it and rounds to 475; likewise
    for an index, and for the population-weighted index of a ZIP code with
    800 of 5,200 residents and 2,050 of 13,000 impressions. *)
Lemma exact_and_binary64_part_at_a_tie :
  calcPriority (Store.rated "row" 1001000 1001 0.001) (Fin 0.004) (of_Z 2000000)
  = of_Z 476
  /\ Binary64.calcPriority (Binary64.of_Z 1001000) (Binary64.of_Q 0.001)
                           (Binary64.of_Q 0.004) (Binary64.of_Z 2000000)
     = Binary64.of_Z 475
  /\ calcIndex (Fin 0.00014) (Fin 0.004) = of_Z 4
  /\ Binary64.calcIndex (Binary64.of_Q 0.00014) (Binary64.of_Q 0.004)
     = Binary64.of_Z 3
  /\ popWeightedIdx (of_Z 13000) (of_Z 5200)
       (Store.zip_row "zip" "DMA" 800 2050 24) = of_Z 103
  /\ Binary64.popWeightedIdx
       (Binary64.zipImpShare (Binary64.of_Z 13000) (Binary64.of_Z 2050))
       (Binary64.zipPopShare (Binary64.of_Z 5200) (Some (Binary64.of_Z 800)))
     = Binary64.of_Z 102.
Proof. repeat split; vm_compute; reflexivity. Qed.

End Binary64Agreement.

(** ** Projection: [calcProj] *)

Section Projection.
Import JS Optimizer.

(** [reduce((s, i) => s + f(i), a)] over finite values is the sum. *)
Lemma reduce_add_Fin {A} (f : A -> num) (l : list A) :
  Forall (fun x => is_finite (f x) = true) l ->
  forall a, exists q,
    fold_left (fun s i => add s (f i)) l (Fin a) = Fin q
    /\ q == a + Spec.sum (map (fun x => to_Q (f x)) l).
Proof.
  induction 1 as [| x l Hx _ IH]; intros a.
  - exists a. split; [reflexivity |]. simpl. ring.
  - apply is_finite_true in Hx. destruct Hx as [qx Hx].
    cbn [fold_left map Spec.sum fold_right]. rewrite Hx. cbn [add to_Q].
    destruct (IH (a + qx)) as [q [Hq Heq]].
    exists q. split; [exact Hq |]. rewrite Heq. unfold Spec.sum. ring.
Qed.





Lemma mul_comm x y : num_eq (mul x y) (mul y x).
Proof.
  destruct x, y; cbn [mul]; try apply num_eq_refl.
  cbn [num_eq]. ring.
Qed.

(** The figures of [calcProj] on finite data: its sums and its quotient. *)
Lemma calcProj_Fin advData selected tv ti :
  totalVisits (summary advData) = Fin tv ->
  totalImpressions (summary advData) = Fin ti ->
  Forall finite_counts selected ->
  exists ei ev,
    ei == Spec.sum (map q_impressions selected)
    /\ ev == Spec.sum (map q_visits selected)
    /\ excImps (calcProj advData selected) = Fin ei
    /\ newRate (calcProj advData selected) = div (Fin (tv - ev)) (Fin (ti - ei)).
Proof.
  intros Htv Hti Hfin.
  destruct (reduce_add_Fin (fun s => impressions (row s)) selected) with (a := 0)
    as [ei [Hei Hei']].
  { eapply List.Forall_impl; [| exact Hfin]. now intros s [H _]. }
  destruct (reduce_add_Fin (fun s => visits (row s)) selected) with (a := 0)
    as [ev [Hev Hev']].
  { eapply List.Forall_impl; [| exact Hfin]. now intros s [_ H]. }
  exists ei, ev. unfold q_impressions, q_visits.
  split; [rewrite Hei'; ring |]. split; [rewrite Hev'; ring |].
  unfold calcProj. cbn [excImps newRate]. unfold zero.
  rewrite Hei, Hev, Htv, Hti. split; reflexivity.
Qed.


(** C10. When the impressions of the selected rows add up to the
    advertiser's total, [calcProj] divides by zero: it still returns, and
    the new rate and the improvement it reports are [NaN] or an infinity. *)
Theorem C10_calcProj_division_by_zero :
  forall advData selected tv ti,
    totalVisits (summary advData) = Fin tv ->
    totalImpressions (summary advData) = Fin ti ->
    Forall finite_counts selected ->
    Spec.sum (map q_impressions selected) == ti ->
    is_finite (newRate (calcProj advData selected)) = false
    /\ is_finite (improvement (calcProj advData selected)) = false.
Proof.
  intros advData selected tv ti Htv Hti Hfin Hsum.
  destruct (calcProj_Fin advData selected tv ti Htv Hti Hfin)
    as [ei [ev [Hei [Hev [HexcImps HnewRate]]]]].
  assert (Hnr : is_finite (newRate (calcProj advData selected)) = false).
  { rewrite HnewRate. apply div_by_zero_not_finite. rewrite Hei, Hsum. ring. }
  split; [exact Hnr |].
  change (improvement (calcProj advData selected))
    with (mul (sub (div (newRate (calcProj advData selected))
                        (overallVisitRate (summary advData)))
                   (of_Z 1)) (of_Z 100)).
  apply mul_not_finite_l, sub_not_finite_l, div_not_finite_l, Hnr.
Qed.

End Projection.

(** ** Sorting and tier selection *)

Section Tiers.
Import JS Optimizer.

Lemma insert_Permutation {A} (cmp : A -> A -> num) x l :
  Permutation (insert cmp x l) (x :: l).
Proof.
  induction l as [| y l IH]; cbn [insert]; [reflexivity |].
  destruct (gt (cmp x y) zero); [| reflexivity].
  rewrite IH. apply perm_swap.
Qed.

Lemma sort_Permutation {A} (cmp : A -> A -> num) l :
  Permutation (sort cmp l) l.
Proof.
  induction l as [| x l IH]; cbn [sort fold_right]; [reflexivity |].
  fold (sort cmp l). rewrite insert_Permutation. now constructor.
Qed.

Lemma gt_by_priority_desc a b :
  finite_priority a -> finite_priority b ->
  gt (by_priority_desc a b) zero
  = gt (reallocationPriority b) (reallocationPriority a).
Proof.
  unfold finite_priority, by_priority_desc. intros Ha Hb.
  apply is_finite_true in Ha. apply is_finite_true in Hb.
  destruct Ha as [qa Ha], Hb as [qb Hb]. rewrite Ha, Hb.
  cbn [sub add neg gt zero].
  destruct (Qlt_le_dec 0 (qb + - qa)), (Qlt_le_dec qa qb);
    try reflexivity; exfalso; lra.
Qed.

Lemma prio_ge_iff a b :
  finite_priority a -> finite_priority b ->
  prio_ge a b <-> gt (reallocationPriority b) (reallocationPriority a) = false.
Proof.
  unfold finite_priority, prio_ge. intros Ha Hb.
  apply is_finite_true in Ha. apply is_finite_true in Hb.
  destruct Ha as [qa Ha], Hb as [qb Hb]. rewrite Ha, Hb.
  cbn [num_le]. symmetry. apply gt_Fin_false.
Qed.

Lemma prio_ge_trans a b c : prio_ge a b -> prio_ge b c -> prio_ge a c.
Proof.
  unfold prio_ge.
  destruct (reallocationPriority a), (reallocationPriority b),
    (reallocationPriority c); cbn [num_le]; try tauto.
  intros. lra.
Qed.

Lemma prio_lt_ge a b :
  finite_priority a -> finite_priority b ->
  gt (reallocationPriority b) (reallocationPriority a) = true -> prio_ge b a.
Proof.
  unfold finite_priority, prio_ge. intros Ha Hb.
  apply is_finite_true in Ha. apply is_finite_true in Hb.
  destruct Ha as [qa Ha], Hb as [qb Hb]. rewrite Ha, Hb.
  rewrite gt_Fin_true. cbn [num_le]. lra.
Qed.

Lemma insert_sorted x l :
  finite_priority x -> Forall finite_priority l ->
  StronglySorted prio_ge l ->
  StronglySorted prio_ge (insert by_priority_desc x l).
Proof.
  intros Hx Hl Hs. induction l as [| y l IH]; cbn [insert].
  - constructor; constructor.
  - inversion Hl as [| ? ? Hy Hl']; subst.
    inversion Hs as [| ? ? Hs' Hyl]; subst.
    rewrite (gt_by_priority_desc x y Hx Hy).
    destruct (gt (reallocationPriority y) (reallocationPriority x)) eqn:Hg.
    + constructor; [now apply IH |].
      rewrite (insert_Permutation by_priority_desc x l).
      constructor; [now apply prio_lt_ge | assumption].
    + assert (Hxy : prio_ge x y) by now apply prio_ge_iff.
      constructor; [assumption |]. constructor; [assumption |].
      eapply List.Forall_impl; [| exact Hyl].
      intros z Hz. now apply prio_ge_trans with y.
Qed.

Lemma sort_by_priority_sorted l :
  Forall finite_priority l -> StronglySorted prio_ge (sort by_priority_desc l).
Proof.
  induction 1 as [| x l Hx Hl IH]; cbn [sort fold_right].
  - constructor.
  - fold (sort by_priority_desc l). apply insert_sorted; try assumption.
    now rewrite sort_Permutation.
Qed.

Lemma filter_sorted {A} (R : A -> A -> Prop) (f : A -> bool) l :
  StronglySorted R l -> StronglySorted R (List.filter f l).
Proof.
  induction 1 as [| x l Hs IH Hx]; cbn [List.filter]; [constructor |].
  destruct (f x); [| assumption].
  constructor; [assumption |].
  rewrite List.Forall_forall in *. intros y Hy.
  apply List.filter_In in Hy. now apply Hx.
Qed.


(** The selection is a prefix of the candidates in priority order. *)
Lemma slice_filter_sort_prefix n cand rows :
  exists rest,
    List.filter cand (sort by_priority_desc rows)
    = slice0 n (List.filter cand (sort by_priority_desc rows)) ++ rest.
Proof.
  exists (skipn n (List.filter cand (sort by_priority_desc rows))).
  unfold slice0. now rewrite firstn_skipn.
Qed.

End Tiers.

(** ** Store entries with finite figures *)

Section WellFormed.
Import JS Optimizer.

Lemma or_else_zero_Fin o : finite_opt o -> exists q, or_else o zero = Fin q.
Proof.
  destruct o as [v |]; cbn [finite_opt or_else]; [| now exists 0].
  intros Hv. apply is_finite_true in Hv. destruct Hv as [q ->].
  destruct (truthy (Fin q)); [now exists q | now exists 0].
Qed.

Lemma zip_visitRate_Fin z : finite_row z -> exists r, zip_visitRate z = Fin r.
Proof.
  intros (Hi & Hv & Hr & _). unfold zip_visitRate.
  apply is_finite_true in Hi. apply is_finite_true in Hv.
  destruct Hi as [i Hi], Hv as [v Hv]. rewrite Hi, Hv.
  destruct (gt (Fin i) zero) eqn:Hg.
  - apply gt_Fin_true in Hg. rewrite div_Fin by lra. eauto.
  - now apply or_else_zero_Fin.
Qed.

Lemma totalPop_of_Fin zs :
  Forall finite_row zs -> exists P, totalPop_of zs = Fin P.
Proof.
  intros Hfin. unfold totalPop_of, zero.
  destruct (reduce_add_Fin (fun z => or_else (population z) zero) zs)
    with (a := 0) as [P [HP _]]; [| now exists P].
  eapply List.Forall_impl; [| exact Hfin].
  intros z (_ & _ & _ & Hp). apply is_finite_true. now apply or_else_zero_Fin.
Qed.

Lemma calcIndex_of_Z r b : exists n, calcIndex (Fin r) (Fin b) = of_Z n.
Proof.
  unfold calcIndex. destruct (gt (Fin b) zero) eqn:Hg; [| now exists 0%Z].
  apply gt_Fin_true in Hg. rewrite div_Fin by lra. cbn [mul of_Z].
  rewrite Math_round_Fin. eauto.
Qed.

Lemma popWeightedIdx_of_Z z T P :
  finite_row z -> ~ T == 0 ->
  exists n, popWeightedIdx (Fin T) (Fin P) z = of_Z n.
Proof.
  intros Hz HT. pose proof Hz as (Hi & _ & _ & Hp).
  apply is_finite_true in Hi. destruct Hi as [i Hi].
  destruct (or_else_zero_Fin _ Hp) as [p Hpop].
  assert (Hps : exists ps, zipPopShare (Fin P) z = Fin ps).
  { unfold zipPopShare. rewrite Hpop.
    destruct (gt (Fin P) zero) eqn:Hg; [| now exists 0].
    apply gt_Fin_true in Hg. rewrite div_Fin by lra. eauto. }
  destruct Hps as [ps Hps]. unfold popWeightedIdx. rewrite Hps.
  destruct (gt (Fin ps) zero) eqn:Hg; [| now exists 0%Z].
  apply gt_Fin_true in Hg. unfold zipImpShare.
  rewrite Hi, (div_Fin _ _ HT), div_Fin by lra. cbn [mul of_Z].
  rewrite Math_round_Fin. eauto.
Qed.

Lemma zip_priority_finite z b T P :
  finite_row z -> ~ T == 0 ->
  is_finite (zip_reallocationPriority (Fin b) (Fin T) (Fin P) z) = true.
Proof.
  intros Hz HT. unfold zip_reallocationPriority.
  destruct (popWeightedIdx_of_Z z T P Hz HT) as [n ->].
  destruct (zip_visitRate_Fin z Hz) as [r Hr].
  destruct (gt (of_Z n) zero).
  - unfold perfIdx. rewrite Hr. destruct (calcIndex_of_Z r b) as [m ->].
    reflexivity.
  - destruct Hz as (Hi & _). apply is_finite_true in Hi. destruct Hi as [i Hi].
    rewrite (calcPriority_Fin (priority_item z) i r T b); try assumption.
    + reflexivity.
    + cbn [priority_item visitRate]. now rewrite Hr.
Qed.

Lemma scored_publishers_finite advData :
  finite_entry advData -> Forall finite_priority (scored_publishers advData).
Proof.
  intros ((T & HT & HT0) & Hb & Hpubs & _). unfold scored_publishers.
  apply is_finite_true in Hb. destruct Hb as [b Hb]. rewrite HT, Hb.
  apply List.Forall_map. eapply List.Forall_impl; [| exact Hpubs].
  intros p ((Hi & _ & Hr & _) & Hsome). unfold finite_priority.
  cbn [enrich_publisher reallocationPriority].
  apply is_finite_true in Hi. destruct Hi as [i Hi].
  destruct (visitRate p) as [v |] eqn:Hv; [| congruence].
  cbn [finite_opt] in Hr. apply is_finite_true in Hr. destruct Hr as [r ->].
  now rewrite (calcPriority_Fin p i r T b).
Qed.

Lemma scored_zipCodes_finite advData :
  finite_entry advData -> Forall finite_priority (scored_zipCodes advData).
Proof.
  intros ((T & HT & HT0) & Hb & _ & Hzips). unfold scored_zipCodes.
  apply is_finite_true in Hb. destruct Hb as [b Hb].
  destruct (totalPop_of_Fin _ Hzips) as [P HP]. rewrite HT, Hb, HP.
  apply List.Forall_map. eapply List.Forall_impl; [| exact Hzips].
  intros z Hz. unfold finite_priority.
  cbn [enrich_zip reallocationPriority]. now apply zip_priority_finite.
Qed.

End WellFormed.

(** ** Recommendations: the two tiers *)

Section Recommendations.
Import JS Optimizer.

Lemma analyze_zipCodes a advData :
  d_zipCodes (analyze a advData) = scored_zipCodes advData.
Proof. reflexivity. Qed.

Lemma analyze_publishers a advData :
  d_publishers (analyze a advData) ++ d_contexts (analyze a advData)
  = scored_publishers advData.
Proof.
  unfold analyze. cbn [d_publishers d_contexts].
  destruct (String.eqb a "1480"); [reflexivity | apply app_nil_r].
Qed.

Lemma analyze_pubRecommendations a advData :
  pubRecommendations (analyze a advData)
  = match scored_publishers advData with
    | [] => None
    | _ :: _ =>
        Some {| conservative :=
                  recommendation advData (consPubs (scored_publishers advData));
                aggressive :=
                  recommendation advData (aggPubs (scored_publishers advData)) |}
    end.
Proof. reflexivity. Qed.

Lemma analyze_geoRecommendations a advData :
  geoRecommendations (analyze a advData)
  = {| conservative :=
         recommendation advData
           (consZips (counts_of advData) (scored_zipCodes advData));
       aggressive :=
         recommendation advData
           (aggZips (counts_of advData) (scored_zipCodes advData)) |}.
Proof. reflexivity. Qed.

Lemma analyzeData_no_selection :
  analyzeData Store.advertiserData "2514" EmptyString = None.
Proof. reflexivity. Qed.

(** Space Coast Tourism has an empty publisher array: its publisher
    recommendations are [null], its geography recommendations are not. *)
Lemma analyzeData_Space_Coast :
  exists d,
    analyzeData Store.advertiserData "1813" "7389" = Some d
    /\ pubRecommendations d = None
    /\ length (items (conservative (geoRecommendations d))) = 1%nat
    /\ length (items (aggressive (geoRecommendations d))) = 2%nat.
Proof.
  eexists. split; [vm_compute; reflexivity |]. repeat split.
Qed.




(** C5 at the entry of Noodles & Company: the conservative publisher tier
    excludes 7,043,981 of the 7,624,633 impressions, the aggressive one
    8,662,688; both are more than 35% of the total, the documented maximum
    reallocation. *)
Lemma C5_Noodles_excludes_more_than_35_percent :
  exists t,
    pubRecommendations (analyze "2514" Store.adv_45143) = Some t
    /\ totalImpressions (summary Store.adv_45143) = of_Z 7624633
    /\ excImps (projection (conservative t)) = of_Z 7043981
    /\ excImps (projection (aggressive t)) = of_Z 8662688
    /\ (35 # 100) * 7624633 < 7043981.
Proof.
  eexists. split; [reflexivity |].
  repeat split; vm_compute; reflexivity.
Qed.

End Recommendations.

(** ** The guarded visit rate of ZIP rows *)

Section VisitRate.
Import JS Optimizer.

(** C7 (as amended).  Every ZIP row of a store entry with finite figures is
    emitted, the rows without impressions included, each with a finite visit
    rate: the division is made only when the impressions are positive, and a
    row without impressions takes its own [visitRate], or 0. *)
Theorem C7_guarded_visit_rate :
  forall selectedAgency advData,
    Forall finite_row (or_empty (zipCodes advData)) ->
    Forall2 emitted_from (or_empty (zipCodes advData))
            (d_zipCodes (analyze selectedAgency advData)).
Proof.
  intros a advData Hfin. rewrite analyze_zipCodes. unfold scored_zipCodes.
  generalize (totalPop_of (or_empty (zipCodes advData))). intros totalPop.
  induction Hfin as [| z zs Hz _ IH]; cbn [map]; [constructor |].
  constructor; [| exact IH].
  unfold emitted_from. cbn [enrich_zip row key impressions visits visitRate].
  repeat split.
  destruct (zip_visitRate_Fin z Hz) as [r Hr]. exists r.
  split; [now rewrite Hr |].
  unfold zip_visitRate in Hr.
  split; intros Hg; rewrite Hg in Hr; now symmetry.
Qed.

(** An entry with a ZIP code without impressions. *)
Lemma C7_witness_idle_zip :
  Forall2 emitted_from (or_empty (zipCodes Examples.adv_idle_zip))
          (d_zipCodes (analyze "2514" Examples.adv_idle_zip)).
Proof.
  apply (C7_guarded_visit_rate "2514" Examples.adv_idle_zip).
  cbn. finite_rows.
Defined.

(** A ZIP row without impressions is not excluded: [analyze] emits it, with
    the visit rate 0. *)
Lemma C7_counterexample_idle_zip :
  exists s,
    In s (d_zipCodes (analyze "2514" Examples.adv_idle_zip))
    /\ key (row s) = "80002"%string
    /\ impressions (row s) = of_Z 0
    /\ visitRate (row s) = Some (of_Z 0).
Proof.
  eexists. split; [right; left; reflexivity |].
  repeat split.
Qed.

End VisitRate.

(** ** Witnesses for the projection *)

Section ProjectionWitnesses.
Import JS Optimizer.


(** The only publisher of an advertiser carries all of its impressions. *)
Lemma C10_witness_single_publisher :
  let selected := consPubs (scored_publishers Examples.adv_single_publisher) in
  is_finite (newRate (calcProj Examples.adv_single_publisher selected)) = false
  /\ is_finite (improvement (calcProj Examples.adv_single_publisher selected))
     = false.
Proof.
  intros selected.
  apply (C10_calcProj_division_by_zero Examples.adv_single_publisher selected
           4000 1000000); try reflexivity.
  vm_compute. finite_rows.
Defined.

End ProjectionWitnesses.

(** ** Last-touch attribution *)

Section LastTouch.
Import Attribution.

#[local] Instance ts_desc_transitive : Transitive ts_desc.
Proof. intros a b c. unfold ts_desc. lia. Qed.

#[local] Instance ts_desc_total : Total ts_desc.
Proof. intros a b. unfold ts_desc. lia. Qed.

(** *** Numbering and the rows numbered 1 *)

Lemma filter_rn1_from k o :
  (2 <= k)%nat ->
  List.filter (fun x : ConversionFlag * nat => Nat.eqb (snd x) 1)
              (combine o (seq k (length o))) = [].
Proof.
  revert k. induction o as [| f o IH]; intros k Hk; [reflexivity |].
  cbn [length seq combine List.filter snd].
  destruct (Nat.eqb_spec k 1) as [-> | _]; [lia |].
  apply IH. lia.
Qed.

Lemma keep_rn1_row_number o : keep_rn1 (row_number o) = firstn 1 o.
Proof.
  destruct o as [| f o]; [reflexivity |].
  unfold keep_rn1, row_number.
  cbn [length seq combine List.filter snd Nat.eqb].
  now rewrite filter_rn1_from by lia.
Qed.

Lemma keep_rn1_app w1 w2 : keep_rn1 (w1 ++ w2) = keep_rn1 w1 ++ keep_rn1 w2.
Proof. unfold keep_rn1. now rewrite List.filter_app, map_app. Qed.

Lemma keep_rn1_flat_map orders :
  keep_rn1 (flat_map row_number orders) = flat_map (firstn 1) orders.
Proof.
  induction orders as [| o orders IH]; [reflexivity |].
  cbn [flat_map]. now rewrite keep_rn1_app, keep_rn1_row_number, IH.
Qed.

(** *** Partitions *)

Lemma in_partition_of k rows f :
  In f (partition_of k rows) <-> In f rows /\ episode_key f = k.
Proof.
  unfold partition_of. rewrite <- !list_elem_of_In, list_elem_of_filter. tauto.
Qed.

Lemma in_episode_keys rows k :
  In k (episode_keys rows) <-> exists f, In f rows /\ episode_key f = k.
Proof.
  unfold episode_keys.
  rewrite <- list_elem_of_In, elem_of_remove_dups, list_elem_of_In, in_map_iff.
  split; intros [f [H1 H2]]; exists f; tauto.
Qed.

Lemma episode_keys_NoDup rows : List.NoDup (episode_keys rows).
Proof. apply NoDup_ListNoDup, NoDup_remove_dups. Qed.

(** *** The first row of an ordered partition *)

Lemma ordered_head p o :
  ordered_by_ts_desc p o -> p <> [] ->
  exists c rest,
    o = c :: rest /\ In c p
    /\ forall f, In f p -> (imp_timestamp f <= imp_timestamp c)%Z.
Proof.
  intros [Hperm Hsorted] Hne.
  destruct o as [| c rest].
  - apply Permutation_sym, Permutation_nil in Hperm. contradiction.
  - exists c, rest. split; [reflexivity |]. split.
    + apply (Permutation_in _ (Permutation_sym Hperm)). now left.
    + intros f Hf. apply (Permutation_in _ Hperm) in Hf.
      apply StronglySorted_cons in Hsorted. destruct Hsorted as [Hall _].
      destruct Hf as [<- | Hf]; [lia |].
      rewrite List.Forall_forall in Hall. now apply Hall.
Qed.

Lemma heads_credited rows ks orders :
  (forall k, In k ks -> In k (episode_keys rows)) ->
  Forall2 ordered_by_ts_desc (map (fun k => partition_of k rows) ks) orders ->
  Forall2 (credited_for rows) ks (flat_map (firstn 1) orders).
Proof.
  revert orders. induction ks as [| k ks IH]; intros orders Hks Hord.
  - inversion Hord; subst. constructor.
  - cbn [map] in Hord. inversion Hord as [| p o ps os Hpo Hrest]; subst.
    assert (Hk : In k (episode_keys rows)) by (apply Hks; now left).
    apply in_episode_keys in Hk. destruct Hk as [f0 [Hf0 Hkf0]].
    destruct (ordered_head _ _ Hpo) as [c [rest [-> [Hc Hmax]]]].
    { intros Hnil.
      assert (Hin : In f0 (partition_of k rows)) by now apply in_partition_of.
      rewrite Hnil in Hin. contradiction. }
    cbn [flat_map firstn app]. constructor.
    + apply in_partition_of in Hc. destruct Hc as [Hc Hkc].
      split; [exact Hkc |]. split; [exact Hc |].
      intros g Hg Hkg. apply Hmax. apply in_partition_of. split; congruence.
    + apply IH; [| exact Hrest]. intros k' Hk'. apply Hks. now right.
Qed.

Lemma dedupes_to_credited rows out :
  dedupes_to rows out -> Forall2 (credited_for rows) (episode_keys rows) out.
Proof.
  intros [w [[orders [Hord ->]] ->]]. rewrite keep_rn1_flat_map.
  now apply heads_credited.
Qed.

Lemma flat_map_map {A B C} (f : B -> list C) (g : A -> B) l :
  flat_map f (map g l) = flat_map (fun x => f (g x)) l.
Proof.
  induction l as [| x l IH]; [reflexivity |]. cbn [map flat_map]. now rewrite IH.
Qed.

(** The query has a result on every table: the one that [dedupe] computes. *)
Lemma dedupe_is_result rows : dedupes_to rows (dedupe rows).
Proof.
  exists (last_touch rows). split; [| reflexivity].
  exists (map (merge_sort ts_desc) (partitions rows)). split.
  - induction (partitions rows) as [| p ps IH]; cbn [map]; constructor;
      [| exact IH].
    split.
    + symmetry. apply merge_sort_Permutation.
    + apply StronglySorted_merge_sort; apply _.
  - unfold last_touch. now rewrite flat_map_map.
Qed.

Lemma credited_keys rows ks out :
  Forall2 (credited_for rows) ks out -> map episode_key out = ks.
Proof.
  induction 1 as [| k c ks out [Hk _] _ IH]; [reflexivity |].
  cbn [map]. now rewrite Hk, IH.
Qed.

Lemma credited_in rows ks out c :
  Forall2 (credited_for rows) ks out -> In c out ->
  In c rows /\ latest_in rows c.
Proof.
  induction 1 as [| k c' ks out [_ Hc'] _ IH]; intros Hin; [contradiction |].
  destruct Hin as [<- | Hin]; [exact Hc' | now apply IH].
Qed.

(** C1. On every list of flagged rows the de-duplication has a result, and
    every result holds exactly one row per episode key of the input: its
    keys are the input's keys without repetition, each credited row is a
    row of the input that carries the latest impression time of its
    episode, and the empty input gives the empty result. *)
Theorem C1_dedupe_one_per_episode :
  forall rows,
    dedupes_to rows (dedupe rows)
    /\ forall out,
         dedupes_to rows out ->
         List.NoDup (map episode_key out)
         /\ length out = length (episode_keys rows)
         /\ (forall f, In f rows ->
               exists c, In c out /\ episode_key c = episode_key f)
         /\ (forall c, In c out -> In c rows /\ latest_in rows c)
         /\ (rows = [] -> out = []).
Proof.
  intros rows. split; [apply dedupe_is_result |].
  intros out Hout. apply dedupes_to_credited in Hout.
  pose proof (credited_keys _ _ _ Hout) as Hkeys.
  split; [| split; [| split; [| split]]].
  - rewrite Hkeys. apply episode_keys_NoDup.
  - rewrite <- Hkeys. now rewrite length_map.
  - intros f Hf.
    assert (Hk : In (episode_key f) (map episode_key out)).
    { rewrite Hkeys. apply in_episode_keys. now exists f. }
    apply in_map_iff in Hk. destruct Hk as [c [Hkc Hc]]. now exists c.
  - intros c Hc. now apply (credited_in rows (episode_keys rows) out).
  - intros ->. now inversion Hout.
Qed.


End LastTouch.

Section LastTouchExamples.
Import Attribution Tables.

(** The twenty rows of one episode give one credited row, the last one. *)
Lemma C1_witness_twenty_rows :
  List.NoDup (map episode_key (dedupe twenty))
  /\ length (dedupe twenty) = length (episode_keys twenty)
  /\ (forall f, In f twenty ->
        exists c, In c (dedupe twenty) /\ episode_key c = episode_key f)
  /\ (forall c, In c (dedupe twenty) -> In c twenty /\ latest_in twenty c)
  /\ (twenty = [] -> dedupe twenty = []).
Proof.
  exact (proj2 (C1_dedupe_one_per_episode twenty) (dedupe twenty)
               (proj1 (C1_dedupe_one_per_episode twenty))).
Defined.

Lemma twenty_rows_credit_the_last :
  dedupe twenty
  = [ {| row_id := "T"; device := "X"; episode := StoreVisit 20260115;
         imp_timestamp := 1767225620 |} ].
Proof. vm_compute. reflexivity. Qed.



End LastTouchExamples.

(** ** Priority colours *)

Section PriorityColours.
Import JS Optimizer Display.

Lemma gt_weaken x a b : gt x (Fin a) = true -> b <= a -> gt x (Fin b) = true.
Proof.
  destruct x as [q | | |]; cbn [gt]; try congruence.
  intros H Hba. apply gt_Fin_true in H. apply gt_Fin_true. lra.
Qed.

Lemma in_slice0_filter {A} n (f : A -> bool) l x :
  In x (slice0 n (List.filter f l)) -> In x l /\ f x = true.
Proof.
  unfold slice0. intros H. apply List.filter_In.
  rewrite <- (firstn_skipn n (List.filter f l)). apply in_or_app. now left.
Qed.

Lemma warm_of_positive p :
  gt p zero = true -> In (getPriorityColor p) warm_colours.
Proof.
  intros H. unfold getPriorityColor, warm_colours. rewrite H.
  destruct (gt p (of_Z 100)); [now left |].
  destruct (gt p (of_Z 50)); [right; now left | right; right; now left].
Qed.

Lemma not_coldest p :
  gt p (of_Z (-50)) = true -> getPriorityColor p <> "#44cc44"%string.
Proof.
  intros H. unfold getPriorityColor. rewrite H.
  destruct (gt p (of_Z 100)); [discriminate |].
  destruct (gt p (of_Z 50)); [discriminate |].
  destruct (gt p zero); discriminate.
Qed.

(** X1. The colour of a row's priority follows from the recommendation
    that names the row: every row of a conservative tier, of publishers or
    of ZIP codes, is shown in one of the three warm colours ([#ff4444],
    [#ff8844], [#ffbb44]), and no row of an aggressive tier is shown in the
    coldest colour [#44cc44]. *)
Theorem tier_rows_colours :
  forall (counts : gmap string num) (rows : list Scored) (s : Scored),
    (In s (consPubs rows) \/ In s (consZips counts rows) ->
     In (getPriorityColor (reallocationPriority s)) warm_colours)
    /\ (In s (aggPubs rows) \/ In s (aggZips counts rows) ->
        getPriorityColor (reallocationPriority s) <> "#44cc44"%string).
Proof.
  intros counts rows s. split.
  - intros [H | H]; apply in_slice0_filter in H; destruct H as [_ H];
      apply warm_of_positive.
    + now apply andb_true_iff in H.
    + apply andb_true_iff in H. destruct H as [H _].
      now apply andb_true_iff in H.
  - intros [H | H]; apply in_slice0_filter in H; destruct H as [_ H];
      apply not_coldest.
    + apply (gt_weaken _ (inject_Z (-20))); [exact H |].
      rewrite <- Zle_Qle. lia.
    + now apply andb_true_iff in H.
Qed.

Lemma tier_rows_colours_witness :
  In (getPriorityColor
        (reallocationPriority
           (enrich_publisher (Fin 0.00395) (Fin 7624633)
              (Store.rated "HBO Max" 1974033 922 0.000467))))
     warm_colours.
Proof.
  apply (tier_rows_colours ∅ (scored_publishers Store.adv_45143)).
  left. vm_compute. now left.
Defined.

End PriorityColours.

(** ** The component state *)

Section ComponentState.
Import JS Optimizer App.

Variable realAgencies : list (string * string * string).
Variable realAdvertisers : gmap string (list (string * string)).
Variable advertiserData : gmap string AdvData.
Variable name_includes : string -> string -> bool.

#[local] Abbreviation step :=
  (App.step realAgencies realAdvertisers advertiserData name_includes).
#[local] Abbreviation run :=
  (App.run realAgencies realAdvertisers advertiserData name_includes).

(** A property that holds initially and that every event keeps holds in
    every state a run reaches. *)
Lemma run_invariant (P : State -> Prop) (Q : Event -> Prop) :
  (forall s e s', P s -> Q e -> step s e = Some s' -> P s') ->
  forall events s s',
    P s -> Forall Q events -> run s events = Some s' -> P s'.
Proof.
  intros Hstep events.
  induction events as [| e events IH]; intros s s' Hs HQ Hrun; cbn in Hrun.
  - now inversion Hrun; subst.
  - inversion HQ as [| ? ? He HQ']; subst.
    destruct (step s e) as [s1 |] eqn:H1; [| discriminate].
    apply (IH s1 s'); try assumption. now apply (Hstep s e).
Qed.



Lemma existsb_eqb_In (x : string) l : In x l -> existsb (String.eqb x) l = true.
Proof.
  intros H. apply existsb_exists. exists x. split; [exact H |].
  apply String.eqb_refl.
Qed.

Lemma In_existsb_eqb (x : string) l : existsb (String.eqb x) l = true -> In x l.
Proof.
  intros H. apply existsb_exists in H. destruct H as [y [Hy Heq]].
  apply String.eqb_eq in Heq. now subst.
Qed.

(** The advertiser rows the sidebar lists are rows of [advertisers], under
    the expanded agency. *)
Lemma advertiser_rows_In s advId :
  In advId (advertiser_rows name_includes s) ->
  In advId (map fst (advertisers s)) .
Proof.
  unfold advertiser_rows. intros H. apply in_flat_map in H.
  destruct H as [a [_ H]]. destruct (String.eqb _ _); [exact H | contradiction].
Qed.

Lemma selection_invariant_same s s' :
  advertisers s' = advertisers s ->
  selectedAgency s' = selectedAgency s ->
  expandedAgency s' = expandedAgency s ->
  selectedAdvertiser s' = selectedAdvertiser s ->
  loading s' = loading s ->
  timer s' = timer s ->
  data s' = data s ->
  selection_invariant realAdvertisers advertiserData s ->
  selection_invariant realAdvertisers advertiserData s'.
Proof.
  unfold selection_invariant. intros -> -> -> -> -> -> ->. tauto.
Qed.

Lemma selection_invariant_step s e s' :
  selection_invariant realAdvertisers advertiserData s ->
  step s e = Some s' ->
  selection_invariant realAdvertisers advertiserData s'.
Proof.
  intros Hinv Hstep.
  pose proof Hinv as (Hadv & Hexp & Hsel & Hload & Htimer & Hdata).
  destruct e; cbn in Hstep.
  - (* Mount *)
    inversion Hstep; subst; clear Hstep.
    now apply (selection_invariant_same s).
  - (* Search *)
    destruct (sidebarCollapsed s); [discriminate |].
    inversion Hstep; subst; clear Hstep.
    now apply (selection_invariant_same s).
  - (* AgencyClick *)
    destruct (negb _ && _); [| discriminate].
    inversion Hstep; subst; clear Hstep. unfold handleAgencyClick.
    destruct (String.eqb (expandedAgency s) agencyId) eqn:Heq.
    + split; [| split; [| split; [| split; [| split]]]]; cbn; auto.
    + split; [| split; [| split; [| split; [| split]]]]; cbn; auto.
      intros d Hd. discriminate.
  - (* AdvertiserClick *)
    destruct (negb (sidebarCollapsed s)); [| discriminate].
    cbn [andb] in Hstep.
    destruct (existsb _ _) eqn:Hrow; [| discriminate].
    inversion Hstep; subst; clear Hstep.
    apply In_existsb_eqb, advertiser_rows_In in Hrow.
    split; [| split; [| split; [| split; [| split]]]]; cbn; auto.
    + right. unfold advertiser_of. now rewrite <- Hadv.
    + intros d Hd. discriminate.
  - (* AnalyzeClick *)
    destruct (negb (sidebarCollapsed s)); [| discriminate].
    cbn [andb] in Hstep.
    destruct (String.eqb (selectedAdvertiser s) EmptyString) eqn:Hnone;
      [discriminate |].
    cbn [negb andb] in Hstep.
    destruct (loading s) eqn:Hl; [discriminate |].
    inversion Hstep; subst; clear Hstep.
    unfold analyzeData_start. rewrite Hnone.
    apply String.eqb_neq in Hnone.
    split; [| split; [| split; [| split; [| split]]]]; cbn; auto.
    + split; [discriminate | reflexivity].
    + intros agencyId advId Heq. inversion Heq; subst.
      destruct Hsel as [Hsel | Hsel]; [contradiction | auto].
  - (* TimerFire *)
    destruct (timer s) as [[agencyId advId] |] eqn:Ht; [| discriminate].
    inversion Hstep; subst; clear Hstep.
    destruct (Htimer agencyId advId eq_refl) as [Hne Hof].
    unfold analyzeData_callback. cbn [snd fst].
    destruct (advertiserData !! advId) as [advData |] eqn:Hentry.
    + split; [| split; [| split; [| split; [| split]]]]; cbn; auto.
      * split; [discriminate | congruence].
      * discriminate.
      * intros d Hd. inversion Hd; subst. exists agencyId, advId, advData. auto.
    + split; [| split; [| split; [| split; [| split]]]]; cbn; auto.
      * split; [discriminate | congruence].
      * discriminate.
  - (* CollapseClick *)
    inversion Hstep; subst; clear Hstep.
    now apply (selection_invariant_same s).
  - (* HandleMouseDown *)
    destruct (sidebarCollapsed s); [discriminate |].
    inversion Hstep; subst; clear Hstep.
    now apply (selection_invariant_same s).
  - (* MouseMove *)
    inversion Hstep; subst; clear Hstep.
    destruct (isResizing s) eqn:Hres; [| assumption].
    unfold handleMouseMove. rewrite Hres. cbn [negb].
    now apply (selection_invariant_same s).
  - (* MouseUp *)
    inversion Hstep; subst; clear Hstep.
    destruct (isResizing s); [| assumption].
    now apply (selection_invariant_same s).
Qed.

(** X3. The selection stays consistent.  For a table of advertisers with
    no entry under the empty identifier, in every state the component
    reaches from its initial state: the advertisers listed are those of the
    selected agency (none for an agency without an entry); the expanded
    agency, if any, is the selected one; the selected advertiser, if any, is
    an advertiser of the selected agency; [loading] is set exactly while an
    analysis is pending, and the pending analysis is for an advertiser of
    the agency it was started under; the data shown, if any, is the
    analysis of the store entry of an advertiser, under an agency that
    advertiser belongs to. *)
Theorem selection_consistent :
  forall events s,
    realAdvertisers !! EmptyString = None ->
    run initial events = Some s ->
    selection_invariant realAdvertisers advertiserData s.
Proof.
  intros events s Hnone Hrun.
  refine (run_invariant (selection_invariant realAdvertisers advertiserData)
            (fun _ => True) _ events initial s _ _ Hrun).
  - intros s0 e s1 Hs _ Hstep. now apply (selection_invariant_step s0 e).
  - split; [| split; [| split; [| split; [| split]]]]; cbn; auto.
    + now rewrite Hnone.
    + split; [discriminate | congruence].
    + discriminate.
    + discriminate.
  - clear. induction events; constructor; auto.
Qed.

(** X4. The analysis shown can be that of another selection.  The timer
    callback of [analyzeData] works on the selection of the render the
    button was clicked in: when the analysis is started and, before the
    timer fires, another advertiser row [advId] is clicked, the component
    ends with [advId] selected and showing the analysis of the selection
    the button was clicked with (no data when the store has no entry for
    it). *)
Theorem analysis_of_earlier_selection :
  forall s advId,
    sidebarCollapsed s = false ->
    selectedAdvertiser s <> EmptyString ->
    loading s = false ->
    In advId (advertiser_rows name_includes s) ->
    exists s',
      run s [AnalyzeClick; AdvertiserClick advId; TimerFire] = Some s'
      /\ selectedAgency s' = selectedAgency s
      /\ selectedAdvertiser s' = advId
      /\ loading s' = false
      /\ data s'
         = analyzeData advertiserData (selectedAgency s) (selectedAdvertiser s).
Proof.
  intros s advId Hside Hsel Hload Hrow.
  apply String.eqb_neq in Hsel.
  cbn [App.run App.step]. rewrite Hside, Hsel, Hload. cbn [negb andb].
  unfold analyzeData_start. rewrite Hsel.
  cbn [sidebarCollapsed setTimer setLoading].
  rewrite Hside. cbn [negb andb].
  change (advertiser_rows name_includes
            (setTimer (Some (selectedAgency s, selectedAdvertiser s))
               (setLoading true s)))
    with (advertiser_rows name_includes s).
  rewrite (existsb_eqb_In advId _ Hrow).
  cbn [timer handleAdvertiserClick setData setSelectedAdvertiser setTimer
       setLoading].
  unfold analyzeData_callback, analyzeData. cbn [fst snd]. rewrite Hsel.
  destruct (advertiserData !! selectedAdvertiser s) as [advData |];
    eexists; (split; [reflexivity |]); cbn; auto.
Qed.

End ComponentState.

(** ** The order of the tables and the two tiers *)

Section TableOrder.
Import JS Optimizer Display.

Lemma insert_ext {A} (c1 c2 : A -> A -> num) (P : A -> Prop) x l :
  (forall a b, P a -> P b -> gt (c1 a b) zero = gt (c2 a b) zero) ->
  P x -> Forall P l -> insert c1 x l = insert c2 x l.
Proof.
  intros Hc Hx Hl. induction Hl as [| y l Hy Hl IH]; cbn [insert];
    [reflexivity |].
  rewrite (Hc x y Hx Hy), IH. reflexivity.
Qed.

(** Two comparators with the same sign on the rows sort them alike. *)
Lemma sort_ext {A} (c1 c2 : A -> A -> num) (P : A -> Prop) l :
  (forall a b, P a -> P b -> gt (c1 a b) zero = gt (c2 a b) zero) ->
  Forall P l -> sort c1 l = sort c2 l.
Proof.
  intros Hc Hl. induction Hl as [| x l Hx Hl IH]; cbn [sort fold_right];
    [reflexivity |].
  fold (sort c1 l). fold (sort c2 l). rewrite IH.
  apply (insert_ext c1 c2 P); try assumption.
  now rewrite sort_Permutation.
Qed.

(** The sort key of a row with a finite priority is that priority. *)
Lemma scored_key_Fin s q :
  reallocationPriority s = Fin q ->
  exists k, scored_key s = Fin k /\ k == q.
Proof.
  intros Hq. unfold scored_key, sort_key. rewrite Hq. cbn [or_else].
  destruct (truthy (Fin q)) eqn:Ht.
  - exists q. split; reflexivity.
  - exists 0. split; [reflexivity |].
    cbn [truthy] in Ht. apply negb_false_iff, Qzero_b_true in Ht.
    now symmetry.
Qed.

Lemma gt_by_sort_key a b :
  finite_priority a -> finite_priority b ->
  gt (by_sort_key scored_key a b) zero = gt (by_priority_desc a b) zero.
Proof.
  unfold finite_priority. intros Ha Hb.
  apply is_finite_true in Ha. apply is_finite_true in Hb.
  destruct Ha as [qa Ha], Hb as [qb Hb].
  destruct (scored_key_Fin a qa Ha) as [ka [Hka Ea]].
  destruct (scored_key_Fin b qb Hb) as [kb [Hkb Eb]].
  unfold by_sort_key, by_priority_desc. rewrite Hka, Hkb, Ha, Hb.
  cbn [sub add neg gt zero].
  destruct (Qlt_le_dec 0 (kb + - ka)), (Qlt_le_dec 0 (qb + - qa));
    try reflexivity; exfalso; lra.
Qed.

(** On rows with finite priorities the table is in the order the
    recommendations are drawn from. *)
Lemma table_sort_by_priority rows :
  Forall finite_priority rows ->
  sort (by_sort_key scored_key) rows = sort by_priority_desc rows.
Proof.
  intros Hfin. apply (sort_ext _ _ finite_priority); [| exact Hfin].
  intros a b. apply gt_by_sort_key.
Qed.

Lemma DataTable_rows {A} (key_of : A -> num) data recommendations emptyMessage
    rows recs :
  DataTable key_of data recommendations emptyMessage = TablePanel rows recs ->
  rows = sort (by_sort_key key_of) data /\ recs = recommendations.
Proof.
  unfold DataTable. destruct data as [| x data].
  - destruct emptyMessage as [m |]; [destruct (String.eqb m EmptyString) |];
      discriminate.
  - intros H. inversion H. split; reflexivity.
Qed.

(** X5. The tables show the rows in the order the recommendations are
    drawn from.  For an entry with finite figures and a nonzero impression
    total, the publisher table (the context table for the web agency) lists
    the scored rows by descending priority exactly as [sortedPubs] orders
    them, and the geography table as [sortedZips] does; so each tier is made
    of the first rows of its table that satisfy the tier's filter.  The
    table's sort key reads a priority of 0 or [NaN] as 0, so this needs the
    priorities to be finite. *)
Theorem tables_follow_recommendation_order :
  forall selectedAgency advData,
    finite_entry advData ->
    let d := analyze selectedAgency advData in
    (forall rows recs,
        publisher_table (render d) = Some (TablePanel rows recs)
        \/ context_table (render d) = Some (TablePanel rows recs) ->
        rows = sortedPubs (scored_publishers advData)
        /\ recs = pubRecommendations d
        /\ forall t, recs = Some t ->
             items (conservative t) = slice0 5 (List.filter cons_candidate rows)
             /\ items (aggressive t)
                = slice0 8 (List.filter (agg_candidate (-20)) rows))
    /\ (forall rows recs,
          geo_table (render d) = TablePanel rows recs ->
          rows = sortedZips (scored_zipCodes advData)
          /\ recs = Some (geoRecommendations d)
          /\ items (conservative (geoRecommendations d))
             = slice0 5 (List.filter
                           (fun z => cons_candidate z
                                     && dma_guard (counts_of advData) z) rows)
          /\ items (aggressive (geoRecommendations d))
             = slice0 10 (List.filter
                            (fun z => agg_candidate (-50) z
                                      && dma_guard (counts_of advData) z) rows)).
Proof.
  intros selectedAgency advData Hfin d.
  pose proof (scored_publishers_finite advData Hfin) as Hpubs.
  pose proof (scored_zipCodes_finite advData Hfin) as Hzips.
  split.
  - intros rows recs Hshown.
    assert (Hrows : rows = sortedPubs (scored_publishers advData)
                    /\ recs = pubRecommendations d).
    { unfold render in Hshown.
      cbn [publisher_table context_table] in Hshown.
      subst d. unfold analyze in Hshown.
      cbn [type d_publishers d_contexts d_noPublisherData pubRecommendations]
        in Hshown.
      fold (scored_publishers advData) in Hshown.
      destruct (String.eqb selectedAgency "1480").
      - destruct Hshown as [Hshown | Hshown]; [discriminate |].
        destruct (scored_publishers advData) as [| p ps] eqn:Hsp;
          [discriminate |].
        cbv iota in Hshown. apply (inj Some) in Hshown as Hpanel.
        apply DataTable_rows in Hpanel.
        destruct Hpanel as [-> ->]. split.
        + unfold sortedPubs. now apply table_sort_by_priority.
        + unfold analyze. cbn [pubRecommendations].
          fold (scored_publishers advData). now rewrite Hsp.
      - destruct Hshown as [Hshown | Hshown]; [| discriminate].
        apply (inj Some) in Hshown as Hpanel. apply DataTable_rows in Hpanel.
        destruct Hpanel as [-> ->]. split.
        + unfold sortedPubs. now apply table_sort_by_priority.
        + reflexivity. }
    destruct Hrows as [-> ->].
    split; [reflexivity | split; [reflexivity |]].
    intros t Ht. subst d. rewrite analyze_pubRecommendations in Ht.
    destruct (scored_publishers advData); [discriminate |].
    inversion Ht. split; reflexivity.
  - intros rows recs Hshown.
    unfold render in Hshown. cbn [geo_table] in Hshown.
    apply DataTable_rows in Hshown. destruct Hshown as [-> ->].
    subst d. rewrite analyze_zipCodes, analyze_geoRecommendations.
    rewrite (table_sort_by_priority _ Hzips).
    repeat split.
Qed.

(** The geography table of Noodles & Company. *)
Lemma tables_follow_recommendation_order_witness :
  exists rows recs,
    geo_table (render (analyze "2514" Store.adv_45143)) = TablePanel rows recs
    /\ rows = sortedZips (scored_zipCodes Store.adv_45143).
Proof.
  assert (Hshown :
    geo_table (render (analyze "2514" Store.adv_45143))
    = TablePanel
        (sort (by_sort_key scored_key)
              (d_zipCodes (analyze "2514" Store.adv_45143)))
        (Some (geoRecommendations (analyze "2514" Store.adv_45143))))
    by (vm_compute; reflexivity).
  eexists. eexists. split; [exact Hshown |].
  apply (tables_follow_recommendation_order "2514" Store.adv_45143)
    with (recs := Some (geoRecommendations (analyze "2514" Store.adv_45143)));
    [| exact Hshown].
  split; [| split; [| split]].
  - exists 7624633. split; [reflexivity |]. intros H. vm_compute in H.
    discriminate.
  - reflexivity.
  - finite_rows.
  - finite_rows.
Defined.

Lemma filter_andb {A} (f g : A -> bool) l :
  List.filter (fun x => f x && g x) l = List.filter f (List.filter g l).
Proof.
  induction l as [| x l IH]; cbn [List.filter]; [reflexivity |].
  destruct (g x); cbn [List.filter]; rewrite ?andb_true_r, ?andb_false_r.
  - destruct (f x); now rewrite IH.
  - exact IH.
Qed.

(** In a list in descending order of priority, the rows above a threshold
    come first among the rows above a lower threshold. *)
Lemma filter_threshold_prefix (a b : Q) l :
  b <= a -> Forall finite_priority l -> StronglySorted prio_ge l ->
  exists rest,
    List.filter (fun s => gt (reallocationPriority s) (Fin b)) l
    = List.filter (fun s => gt (reallocationPriority s) (Fin a)) l ++ rest.
Proof.
  intros Hba Hfin Hs. induction Hs as [| x l Hs IH Hx]; cbn [List.filter].
  - now exists [].
  - inversion Hfin as [| ? ? Hfx Hfl]; subst.
    destruct (gt (reallocationPriority x) (Fin a)) eqn:Ha.
    + rewrite (gt_weaken _ a b Ha Hba).
      destruct (IH Hfl) as [rest Hrest]. exists rest. cbn [app]. now f_equal.
    + assert (Hnone :
        List.filter (fun s => gt (reallocationPriority s) (Fin a)) l = []).
      { apply List.Forall_forall with (x := x) in Hfin as Hx'; [| now left].
        clear IH. induction l as [| y l IHl]; cbn [List.filter];
          [reflexivity |].
        inversion Hx as [| ? ? Hxy Hxl]; subst.
        inversion Hfl as [| ? ? Hfy Hfl']; subst.
        inversion Hs as [| ? ? Hs' Hy]; subst.
        assert (Hy0 : gt (reallocationPriority y) (Fin a) = false).
        { unfold finite_priority in Hfx, Hfy. unfold prio_ge in Hxy.
          apply is_finite_true in Hfx. apply is_finite_true in Hfy.
          destruct Hfx as [qx Hqx], Hfy as [qy Hqy].
          rewrite Hqx in Ha. rewrite Hqx, Hqy in Hxy. rewrite Hqy.
          cbn [num_le] in Hxy. apply gt_Fin_false in Ha.
          apply gt_Fin_false. lra. }
        rewrite Hy0. apply IHl; try assumption.
        constructor; assumption. }
      rewrite Hnone. cbn [app]. eauto.
Qed.

Lemma slice0_prefix {A} n m (p rest : list A) :
  (n <= m)%nat ->
  exists rest', slice0 m (p ++ rest) = slice0 n p ++ rest'.
Proof.
  intros Hnm. unfold slice0.
  replace (p ++ rest) with (firstn n p ++ (skipn n p ++ rest))
    by now rewrite app_assoc, firstn_skipn.
  rewrite firstn_app.
  assert (Hlen : (length (firstn n p) <= m)%nat).
  { rewrite length_firstn. lia. }
  rewrite (firstn_all2 (n := m) (firstn n p)) by exact Hlen. eauto.
Qed.

(** X6. A conservative tier opens the aggressive tier of the same rows.
    When the scored rows have finite priorities and every row has visits,
    the aggressive tier of publishers starts with the rows of the
    conservative tier, in the same order, and so does the aggressive tier
    of ZIP codes for any table of market-area counts. *)
Theorem conservative_tier_opens_aggressive :
  forall (counts : gmap string num) (rows : list Scored),
    Forall finite_priority rows ->
    Forall (fun s => gt (visits (row s)) zero = true) rows ->
    (exists rest, aggPubs rows = consPubs rows ++ rest)
    /\ (exists rest, aggZips counts rows = consZips counts rows ++ rest).
Proof.
  intros counts rows Hfin Hvis.
  pose proof (sort_by_priority_sorted rows Hfin) as Hsorted.
  assert (Hfin' : Forall finite_priority (sort by_priority_desc rows))
    by now rewrite sort_Permutation.
  assert (Hvis' : Forall (fun s => gt (visits (row s)) zero = true)
                         (sort by_priority_desc rows))
    by now rewrite sort_Permutation.
  split.
  - unfold aggPubs, consPubs, sortedPubs.
    rewrite (List.filter_ext_in
               (fun p => gt (reallocationPriority p) zero
                         && gt (visits (row p)) zero)
               (fun p => gt (reallocationPriority p) (Fin 0))).
    2:{ intros p Hp. rewrite List.Forall_forall in Hvis'.
        now rewrite (Hvis' p Hp), andb_true_r. }
    destruct (filter_threshold_prefix 0 (inject_Z (-20))
                (sort by_priority_desc rows)) as [rest Hrest];
      try assumption.
    { change (inject_Z (-20) <= inject_Z 0). rewrite <- Zle_Qle. lia. }
    unfold of_Z. rewrite Hrest. apply slice0_prefix. lia.
  - unfold aggZips, consZips, sortedZips.
    rewrite (List.filter_ext_in
               (fun z => gt (reallocationPriority z) zero
                         && gt (visits (row z)) zero && dma_guard counts z)
               (fun z => gt (reallocationPriority z) (Fin 0)
                         && dma_guard counts z)).
    2:{ intros p Hp. rewrite List.Forall_forall in Hvis'.
        now rewrite (Hvis' p Hp), andb_true_r. }
    rewrite !filter_andb.
    destruct (filter_threshold_prefix 0 (inject_Z (-50))
                (List.filter (dma_guard counts) (sort by_priority_desc rows)))
      as [rest Hrest].
    + change (inject_Z (-50) <= inject_Z 0). rewrite <- Zle_Qle. lia.
    + rewrite List.Forall_forall in *. intros x Hx.
      apply List.filter_In in Hx. now apply Hfin'.
    + now apply filter_sorted.
    + unfold of_Z. rewrite Hrest. apply slice0_prefix. lia.
Qed.

Lemma conservative_tier_opens_aggressive_witness :
  (exists rest,
      aggPubs (scored_publishers Store.adv_45143)
      = consPubs (scored_publishers Store.adv_45143) ++ rest)
  /\ (exists rest,
        aggZips ∅ (scored_publishers Store.adv_45143)
        = consZips ∅ (scored_publishers Store.adv_45143) ++ rest).
Proof.
  refine (conservative_tier_opens_aggressive
            ∅ (scored_publishers Store.adv_45143) _ _).
  - vm_compute. finite_rows.
  - vm_compute. finite_rows.
Defined.

End TableOrder.

(** ** Sessions of the component *)

Section SessionExamples.
Import JS Optimizer App Sessions.

Lemma select_Noodles_reached :
  App.run realAgencies realAdvertisers Store.advertiserData name_includes
          initial select_Noodles
  = Some Noodles_selected.
Proof. vm_compute. reflexivity. Qed.


Lemma selection_consistent_witness :
  selection_invariant realAdvertisers Store.advertiserData Noodles_selected.
Proof.
  apply (selection_consistent realAgencies realAdvertisers
           Store.advertiserData name_includes select_Noodles).
  - vm_compute. reflexivity.
  - vm_compute. reflexivity.
Defined.

Lemma analysis_of_earlier_selection_witness :
  exists s,
    App.run realAgencies realAdvertisers Store.advertiserData name_includes
            Noodles_selected
            [AnalyzeClick; AdvertiserClick "27828"; TimerFire] = Some s
    /\ selectedAgency s = selectedAgency Noodles_selected
    /\ selectedAdvertiser s = "27828"%string
    /\ loading s = false
    /\ data s
       = analyzeData Store.advertiserData (selectedAgency Noodles_selected)
                     (selectedAdvertiser Noodles_selected).
Proof.
  apply (analysis_of_earlier_selection realAgencies realAdvertisers
           Store.advertiserData name_includes Noodles_selected "27828").
  - reflexivity.
  - discriminate.
  - reflexivity.
  - vm_compute. auto.
Defined.

End SessionExamples.

(** ** CSV export *)

Section CsvExport.
Import JS Optimizer Csv.

Lemma occurrences_app c s1 s2 :
  occurrences c (s1 ++ s2) = (occurrences c s1 + occurrences c s2)%nat.
Proof.
  induction s1 as [| d s1 IH]; simpl; [reflexivity |].
  rewrite IH. lia.
Qed.

(** The occurrences of a character in a joined text: those of the parts,
    and those of the separator between two parts. *)
Lemma occurrences_concat c sep l :
  occurrences c (String.concat sep l)
  = (list_sum (map (occurrences c) l)
     + (length l - 1) * occurrences c sep)%nat.
Proof.
  induction l as [| x l IH]; [reflexivity |].
  destruct l as [| y l].
  - simpl. lia.
  - change (String.concat sep (x :: y :: l))
      with (String.append x (String.append sep (String.concat sep (y :: l)))).
    rewrite !occurrences_app, IH. simpl. lia.
Qed.

(** Removing the first ['%'] removes no comma. *)
Lemma commas_remove_percent s : commas (remove_percent s) = commas s.
Proof.
  unfold commas. induction s as [| c s IH]; [reflexivity |].
  cbn [remove_percent]. destruct (Ascii.eqb c "%") eqn:Hc.
  - apply Ascii.eqb_eq in Hc. subst c. reflexivity.
  - cbn [occurrences]. now rewrite IH.
Qed.

Variable number_to_string : num -> string.

Lemma commas_join row :
  commas (join number_to_string "," row)
  = (length row - 1
     + list_sum (map (fun v => commas (to_text number_to_string v)) row))%nat.
Proof.
  unfold commas, join. rewrite occurrences_concat, length_map, map_map.
  change (occurrences "," ",") with 1%nat. lia.
Qed.

(** X7. [exportToCSV] writes the cells as they are, without quoting.
    Nothing is downloaded for a missing or an empty list of items;
    otherwise the file holds one line for the headers and one per item, and
    the line of an item has one comma per column after the first plus every
    comma of the texts of its cells, a formatted cell keeping the commas of
    its format's text.  So a cell whose text contains a comma shifts the
    columns of its line. *)
Theorem exportToCSV_cells_not_quoted :
  forall (items : list Item) (filename : string) (columns : list Column),
    exportToCSV number_to_string None filename columns = None
    /\ exportToCSV number_to_string (Some []) filename columns = None
    /\ (items <> [] ->
        exportToCSV number_to_string (Some items) filename columns
        = Some ((filename ++ ".csv")%string,
                String.concat newline (lines number_to_string items columns))
        /\ length (lines number_to_string items columns) = S (length items)
        /\ forall item,
             In item items ->
             In (join number_to_string ","
                   (map (cell item) columns))
                (lines number_to_string items columns)
             /\ commas (join number_to_string ","
                          (map (cell item) columns))
                = (length columns - 1
                   + list_sum
                       (map (fun c =>
                               commas (to_text number_to_string (cell item c)))
                            columns))%nat
             /\ forall c f,
                  format c = Some f ->
                  commas (to_text number_to_string (cell item c))
                  = commas (f (get item (col_key c)))).
Proof.
  intros items filename columns. split; [reflexivity |].
  split; [reflexivity |]. intros Hitems.
  split; [| split].
  - destruct items; [congruence | reflexivity].
  - unfold lines, rows. cbn [map length]. now rewrite !length_map.
  - intros item Hitem. split; [| split].
    + unfold lines, rows. cbn [map]. right. rewrite map_map.
      apply in_map_iff. exists item. split; [reflexivity | exact Hitem].
    + rewrite commas_join, length_map, map_map. reflexivity.
    + intros c f Hf. unfold cell. rewrite Hf. cbn [to_text].
      apply commas_remove_percent.
Qed.

End CsvExport.

Section CsvExportExamples.
Import JS Optimizer Csv CsvExamples.

(** The line of ZIP code 20068 (market area "WASHINGTON, DC") in the
    geography export has six commas for six columns. *)
Lemma exportToCSV_cells_not_quoted_witness :
  let columns := geo_columns count_format rate_format in
  let item := zip_item zip_20068 in
  commas (join integer_text "," (headers columns)) = 5%nat
  /\ commas (join integer_text "," (map (cell item) columns)) = 6%nat
  /\ commas (join integer_text "," (map (cell item) columns))
     = (length columns - 1
        + list_sum (map (fun c => commas (to_text integer_text (cell item c)))
                        columns))%nat.
Proof.
  intros columns item. split; [vm_compute; reflexivity |].
  split; [vm_compute; reflexivity |].
  apply (exportToCSV_cells_not_quoted integer_text [item]
           "geo-optimization" columns).
  - discriminate.
  - now left.
Defined.

(** Whatever the texts of the numbers, the line of a ZIP row of the market
    area "WASHINGTON, DC" has more commas than the line of the headers. *)
Lemma geo_export_shifts_columns number_to_string count_format rate_format :
  let columns := geo_columns count_format rate_format in
  commas (join number_to_string "," (headers columns)) = 5%nat
  /\ (6 <= commas (join number_to_string ","
                     (map (cell (zip_item zip_20068)) columns)))%nat.
Proof.
  intros columns. split; [reflexivity |].
  rewrite commas_join, length_map.
  unfold columns, geo_columns. cbn [map length list_sum].
  replace (cell (zip_item zip_20068)
             {| col_key := "dma"; label := "DMA"; format := None |})
    with (Str "WASHINGTON, DC") by (vm_compute; reflexivity).
  cbn [to_text]. change (commas "WASHINGTON, DC") with 1%nat.
  unfold list_sum. cbn [fold_right]. lia.
Qed.

End CsvExportExamples.

(** ** The reports and the composition of the de-duplication *)

Section Reports.
Import Attribution Report.

Context {K : Type} `{EqDecision K}.
Variable column : ConversionFlag -> K.

Lemma total_zero (ks : list K) :
  total (map (fun k => (k, 0%nat)) ks) = 0%nat.
Proof. induction ks as [| k ks IH]; [reflexivity |]. cbn. exact IH. Qed.

Lemma group_of_row_total (r : ConversionFlag) (rows : list ConversionFlag)
    (ks : list K) :
  total (map (fun k => (k, length (filter (fun f => column f = k) (r :: rows))))
             ks)
  = (length (List.filter (fun k => bool_decide (column r = k)) ks)
     + total (map (fun k => (k, length (filter (fun f => column f = k) rows)))
                  ks))%nat.
Proof.
  induction ks as [| k ks IH]; [reflexivity |].
  cbn [map List.filter]. unfold total in *. cbn [foldr snd].
  rewrite IH, filter_cons.
  destruct (decide (column r = k)) as [Heq | Hne].
  - rewrite bool_decide_eq_true_2 by exact Heq. cbn [length]. lia.
  - rewrite bool_decide_eq_false_2 by exact Hne. lia.
Qed.

Lemma filter_eq_NoDup (x : K) (ks : list K) :
  List.NoDup ks -> In x ks ->
  length (List.filter (fun k => bool_decide (x = k)) ks) = 1%nat.
Proof.
  induction 1 as [| k ks Hk Hnd IH]; intros Hin; [contradiction |].
  cbn [List.filter]. destruct (decide (x = k)) as [-> | Hne].
  - rewrite bool_decide_eq_true_2 by reflexivity. cbn [length]. f_equal.
    clear IH Hin. induction ks as [| k0 ks IHks]; [reflexivity |].
    cbn [List.filter].
    rewrite bool_decide_eq_false_2
      by (intros E; apply Hk; left; congruence).
    apply IHks.
    + intros Hin. apply Hk. now right.
    + now inversion Hnd.
  - rewrite bool_decide_eq_false_2 by exact Hne.
    apply IH. destruct Hin as [E | Hin]; [congruence | exact Hin].
Qed.

(** The counts of the groups of a table add up to its number of rows. *)
Lemma total_group_count_over (rows : list ConversionFlag) (ks : list K) :
  List.NoDup ks -> (forall f, In f rows -> In (column f) ks) ->
  total (map (fun k => (k, length (filter (fun f => column f = k) rows))) ks)
  = length rows.
Proof.
  intros Hnd. induction rows as [| r rows IH]; intros Hks.
  - cbn [filter]. apply total_zero.
  - rewrite group_of_row_total.
    rewrite (filter_eq_NoDup _ _ Hnd (Hks r (or_introl eq_refl))), IH;
      [reflexivity |].
    intros f Hf. apply Hks. now right.
Qed.

Lemma in_remove_dups (k : K) (ks : list K) :
  In k (remove_dups ks) <-> In k ks.
Proof.
  now rewrite <- list_elem_of_In, elem_of_remove_dups, list_elem_of_In.
Qed.

Lemma total_group_count rows :
  total (group_count column rows) = length rows.
Proof.
  unfold group_count. apply total_group_count_over.
  - apply NoDup_ListNoDup, NoDup_remove_dups.
  - intros f Hf. apply in_remove_dups, in_map, Hf.
Qed.

Lemma episode_keys_length rows : (length (episode_keys rows) <= length rows)%nat.
Proof.
  rewrite <- (length_map episode_key rows).
  apply NoDup_incl_length; [apply episode_keys_NoDup |].
  intros k Hk. apply in_episode_keys in Hk. destruct Hk as [f [Hf <-]].
  now apply in_map.
Qed.

(** X8. A report on the last-touch rows counts every conversion episode
    once.  Whatever column the visits are grouped by, and whichever rows the
    query keeps among rows with the same impression time, the counts of the
    report add up to the number of distinct episodes (device and store-visit
    date, or device and site visit) of the flagged rows, which is at most
    the number of flagged rows; and no group of the report is empty. *)
Theorem report_counts_each_episode_once :
  forall rows report,
    visits_by column rows report ->
    total report = length (episode_keys rows)
    /\ (total report <= length rows)%nat
    /\ Forall (fun g => (1 <= snd g)%nat) report.
Proof.
  intros rows report [out [Hout ->]].
  apply dedupes_to_credited in Hout.
  assert (Hlen : length out = length (episode_keys rows)).
  { rewrite <- (credited_keys _ _ _ Hout). now rewrite length_map. }
  rewrite total_group_count, Hlen. split; [reflexivity |].
  split; [apply episode_keys_length |].
  unfold group_count. apply List.Forall_forall. intros g Hg.
  apply in_map_iff in Hg. destruct Hg as [k [<- Hk]]. cbn [snd].
  apply in_remove_dups, in_map_iff in Hk.
  destruct Hk as [f [Hfk Hf]].
  assert (Hin : f ∈ filter (fun f0 => column f0 = k) out).
  { apply list_elem_of_filter. split; [exact Hfk |]. now apply list_elem_of_In. }
  destruct (filter (fun f0 => column f0 = k) out); [inversion Hin |].
  cbn [length]. lia.
Qed.

End Reports.

Section Composition.
Import Attribution.



Lemma result_keys_NoDup rows out :
  dedupes_to rows out -> List.NoDup (map episode_key out).
Proof.
  intros Hout. apply dedupes_to_credited in Hout.
  rewrite (credited_keys _ _ _ Hout). apply episode_keys_NoDup.
Qed.


Lemma latest_in_Permutation rows rows' c :
  Permutation rows rows' -> latest_in rows c -> latest_in rows' c.
Proof.
  intros Hp Hl g Hg. apply Hl.
  now apply (Permutation_in _ (Permutation_sym Hp)).
Qed.

Lemma credited_has_key rows out k :
  Forall2 (credited_for rows) (episode_keys rows) out ->
  In k (episode_keys rows) ->
  exists c, In c out /\ episode_key c = k.
Proof.
  intros HF Hk. rewrite <- (credited_keys _ _ _ HF) in Hk.
  apply in_map_iff in Hk. destruct Hk as [c [Hc Hin]]. eauto.
Qed.

Lemma result_included rows rows' out out' c :
  Permutation rows rows' -> single_latest rows ->
  Forall2 (credited_for rows) (episode_keys rows) out ->
  Forall2 (credited_for rows') (episode_keys rows') out' ->
  In c out -> In c out'.
Proof.
  intros Hp Hsingle HF HF' Hc.
  destruct (credited_in _ _ _ c HF Hc) as [Hin Hl].
  assert (Hk : In (episode_key c) (episode_keys rows')).
  { apply in_episode_keys. exists c. split; [| reflexivity].
    now apply (Permutation_in _ Hp). }
  destruct (credited_has_key rows' out' _ HF' Hk) as [c' [Hc' Hkc]].
  destruct (credited_in _ _ _ c' HF' Hc') as [Hin' Hl'].
  assert (c' = c); [| now subst].
  apply Hsingle; try assumption.
  - now apply (Permutation_in _ (Permutation_sym Hp)).
  - apply (latest_in_Permutation rows' rows); [now symmetry | exact Hl'].
Qed.

Lemma result_included_back rows rows' out out' c :
  Permutation rows rows' -> single_latest rows ->
  Forall2 (credited_for rows) (episode_keys rows) out ->
  Forall2 (credited_for rows') (episode_keys rows') out' ->
  In c out' -> In c out.
Proof.
  intros Hp Hsingle HF HF' Hc.
  destruct (credited_in _ _ _ c HF' Hc) as [Hin' Hl'].
  assert (Hin : In c rows)
    by now apply (Permutation_in _ (Permutation_sym Hp)).
  assert (Hk : In (episode_key c) (episode_keys rows)).
  { apply in_episode_keys. now exists c. }
  destruct (credited_has_key rows out _ HF Hk) as [c' [Hc' Hkc]].
  destruct (credited_in _ _ _ c' HF Hc') as [Hin0 Hl0].
  assert (c' = c); [| now subst].
  apply Hsingle; try assumption.
  apply (latest_in_Permutation rows' rows); [now symmetry | exact Hl'].
Qed.

(** X10. Without ties the credited rows do not depend on the order of the
    table: when every episode has a single row with its latest impression
    time, the results of the query on two arrangements of the same rows
    hold the same rows (in an order that may differ). *)
Theorem dedupe_independent_of_row_order :
  forall rows rows' out out',
    Permutation rows rows' -> single_latest rows ->
    dedupes_to rows out -> dedupes_to rows' out' ->
    Permutation out out'.
Proof.
  intros rows rows' out out' Hp Hsingle Hout Hout'.
  pose proof (result_keys_NoDup _ _ Hout) as Hnd.
  pose proof (result_keys_NoDup _ _ Hout') as Hnd'.
  apply dedupes_to_credited in Hout. apply dedupes_to_credited in Hout'.
  apply Permutation.NoDup_Permutation.
  - now apply List.NoDup_map_inv in Hnd.
  - now apply List.NoDup_map_inv in Hnd'.
  - intros c. split.
    + now apply (result_included rows rows').
    + now apply (result_included_back rows rows').
Qed.

End Composition.

Section ReportExamples.
Import Attribution Report Tables.

Lemma untied_single_latest : single_latest untied.
Proof.
  intros f g Hf Hg Hk Lf Lg.
  assert (H2 : In e2 untied) by (cbn; tauto).
  unfold latest_in in Lf, Lg. cbn [untied In] in Hf, Hg.
  repeat (destruct Hf as [<- | Hf]; [| try contradiction]);
    repeat (destruct Hg as [<- | Hg]; [| try contradiction]);
    try reflexivity; try discriminate Hk;
    first [ specialize (Lf e2 H2 eq_refl); cbn in Lf; lia
          | specialize (Lg e2 H2 eq_refl); cbn in Lg; lia ].
Qed.

(** The five rows of [untied], counted by device: two visits for X, one
    for Y. *)
Lemma report_counts_each_episode_once_witness :
  total (group_count device (dedupe untied)) = length (episode_keys untied)
  /\ (total (group_count device (dedupe untied)) <= length untied)%nat
  /\ Forall (fun g => (1 <= snd g)%nat) (group_count device (dedupe untied)).
Proof.
  apply (report_counts_each_episode_once device untied).
  exists (dedupe untied). split; [apply dedupe_is_result | reflexivity].
Defined.


Lemma dedupe_independent_of_row_order_witness :
  Permutation (dedupe untied) (dedupe (rev untied)).
Proof.
  apply (dedupe_independent_of_row_order untied (rev untied)).
  - apply Permutation_rev.
  - apply untied_single_latest.
  - apply dedupe_is_result.
  - apply dedupe_is_result.
Defined.

End ReportExamples.

(** ** A projection that excludes more than the total *)

Section OverExclusion.
Import JS Optimizer.

Lemma Qdiv_pos_neg a d : 0 < a -> d < 0 -> a / d < 0.
Proof.
  intros Ha Hd.
  assert (Hpos : 0 < a / - d).
  { apply Qlt_shift_div_l; lra. }
  assert (Heq : a / d == - (a / - d)) by (field; lra).
  lra.
Qed.

Lemma Qdiv_neg_pos a d : a < 0 -> 0 < d -> a / d < 0.
Proof.
  intros Ha Hd. apply Qlt_shift_div_r; lra.
Qed.

(** X11. [calcProj] does not check that the selected rows fit in the
    advertiser's totals.  On finite figures, when the selected rows carry
    more impressions than the total and fewer visits than the total, the
    projected visit rate is negative, and against a positive baseline the
    projected improvement is at most -100 (percent). *)
Theorem calcProj_excluding_more_than_total :
  forall advData selected tv ti b,
    totalVisits (summary advData) = Fin tv ->
    totalImpressions (summary advData) = Fin ti ->
    overallVisitRate (summary advData) = Fin b ->
    Forall finite_counts selected ->
    ti < Spec.sum (map q_impressions selected) ->
    Spec.sum (map q_visits selected) < tv ->
    0 < b ->
    exists rate pct,
      newRate (calcProj advData selected) = Fin rate /\ rate < 0
      /\ improvement (calcProj advData selected) = Fin pct /\ pct <= - (100).
Proof.
  intros advData selected tv ti b Htv Hti Hb Hfin Himps Hvis Hb0.
  destruct (calcProj_Fin advData selected tv ti Htv Hti Hfin)
    as [ei [ev [Hei [Hev [_ HnewRate]]]]].
  assert (Himp : improvement (calcProj advData selected)
                 = mul (sub (div (newRate (calcProj advData selected)) (Fin b))
                            (of_Z 1)) (of_Z 100)).
  { unfold calcProj. cbn [improvement newRate]. now rewrite Hb. }
  assert (Hden : ti - ei < 0) by (rewrite Hei; lra).
  assert (Hnum : 0 < tv - ev) by (rewrite Hev; lra).
  rewrite div_Fin in HnewRate by lra.
  pose proof (Qdiv_pos_neg _ _ Hnum Hden) as Hrate.
  exists ((tv - ev) / (ti - ei)).
  exists (((tv - ev) / (ti - ei) / b + - inject_Z 1) * inject_Z 100).
  split; [exact HnewRate |]. split; [exact Hrate |].
  split.
  - rewrite Himp, HnewRate, div_Fin by lra. reflexivity.
  - pose proof (Qdiv_neg_pos _ _ Hrate Hb0) as Hq.
    change (inject_Z 1) with 1. change (inject_Z 100) with 100. lra.
Qed.

(** The aggressive tier of publishers of Noodles & Company: 8,662,688
    impressions of a total of 7,624,633. *)
Lemma calcProj_excluding_more_than_total_witness :
  exists rate pct,
    newRate (calcProj Store.adv_45143
               (aggPubs (scored_publishers Store.adv_45143))) = Fin rate
    /\ rate < 0
    /\ improvement (calcProj Store.adv_45143
                      (aggPubs (scored_publishers Store.adv_45143))) = Fin pct
    /\ pct <= - (100).
Proof.
  apply (calcProj_excluding_more_than_total Store.adv_45143
           (aggPubs (scored_publishers Store.adv_45143))
           30157 7624633 0.00395);
    [ reflexivity | reflexivity | reflexivity | vm_compute; finite_rows
    | vm_compute; reflexivity | vm_compute; reflexivity | reflexivity ].
Defined.

End OverExclusion.
